(** * Z.ai GLM agent core: tool executor, MCP client and completion loop

    A shallow embedding of the agentic tool-calling core of automaker-z.ai:

    - [glm-tool-executor]: the command safety filter [isDangerousCommand]
      and the built-in tools behind [executeTool];
    - [glm-mcp-client]: the MCP connection manager [GlmMcpClient];
    - [glm-provider]: the streaming completion loop [executeQuery].

    JavaScript strings are modelled as [string] (sequences of 8-bit
    characters); case folding is the ASCII one, which is what
    [toLowerCase] does on ASCII text. *)

From Stdlib Require Import ZArith Lia Ascii String Bool DecimalString.
From stdpp Require Import base option list strings gmap.

#[local] Open Scope nat_scope.

(* ===================================================================== *)
(** * JavaScript preliminaries *)
(* ===================================================================== *)

Module Js.

(** ** Strings *)

(** [s.startsWith(p)] *)
Definition startsWith (s p : string) : bool := String.prefix p s.

(** [s.indexOf(p)]; [None] stands for [-1]. *)
Fixpoint indexOf (s p : string) : option nat :=
  if String.prefix p s then Some 0
  else match s with
       | EmptyString => None
       | String _ s' => S <$> indexOf s' p
       end.

(** [s.includes(p)] *)
Definition includes (s p : string) : bool :=
  match indexOf s p with Some _ => true | None => false end.

(** ASCII case folding of one character. *)
Definition lower_ascii (c : ascii) : ascii :=
  let n := nat_of_ascii c in
  if (65 <=? n) && (n <=? 90) then ascii_of_nat (n + 32) else c.

(** [s.toLowerCase()] *)
Fixpoint toLowerCase (s : string) : string :=
  match s with
  | EmptyString => EmptyString
  | String c s' => String (lower_ascii c) (toLowerCase s')
  end.

(** A string in a boolean context: only the empty string is falsy. *)
Definition truthy_string (s : string) : bool :=
  match s with EmptyString => false | _ => true end.

(** [a || b] on strings. *)
Definition or_string (a b : string) : string :=
  if truthy_string a then a else b.

(** Decimal rendering of a natural number, as in a template literal. *)
Definition nat_to_string (n : nat) : string :=
  NilZero.string_of_uint (Nat.to_uint n).

(** The double-quote character, for messages that embed one. *)
Definition dquote : string := String (ascii_of_nat 34) EmptyString.

(** Line feed, the separator of [join('\n')]. *)
Definition LF : string := String (ascii_of_nat 10) EmptyString.

(** [xs.join(sep)] on an array of strings. *)
Definition join (sep : string) (xs : list string) : string := String.concat sep xs.

(** White space removed by [trim] (ASCII part). *)
Definition is_space (c : ascii) : bool :=
  let n := nat_of_ascii c in
  ((9 <=? n) && (n <=? 13)) || (n =? 32).

Fixpoint trimStart (s : string) : string :=
  match s with
  | EmptyString => EmptyString
  | String c r => if is_space c then trimStart r else s
  end.

Fixpoint trimEnd (s : string) : string :=
  match s with
  | EmptyString => EmptyString
  | String c r =>
      match trimEnd r with
      | EmptyString => if is_space c then EmptyString else String c EmptyString
      | r' => String c r'
      end
  end.

(** [s.trim()] *)
Definition trim (s : string) : string := trimEnd (trimStart s).

(** The abstract operation GetSubstitution of [String.prototype.replace]
    for a string pattern (no captures): in the replacement text [$$] is a
    dollar sign, [$&] the matched text, [$`] the text before the match and
    [$'] the text after it; every other character stands for itself. *)
Fixpoint GetSubstitution (matched before after template : string) : string :=
  match template with
  | EmptyString => EmptyString
  | String c r =>
      if Ascii.eqb c "$" then
        match r with
        | String d r' =>
            if Ascii.eqb d "$" then "$" +:+ GetSubstitution matched before after r'
            else if Ascii.eqb d "&" then matched +:+ GetSubstitution matched before after r'
            else if Ascii.eqb d "`" then before +:+ GetSubstitution matched before after r'
            else if Ascii.eqb d "'" then after +:+ GetSubstitution matched before after r'
            else String c (GetSubstitution matched before after r)
        | EmptyString => String c EmptyString
        end
      else String c (GetSubstitution matched before after r)
  end.

(** [s.replace(searchValue, replaceValue)] with both arguments strings:
    only the first occurrence is replaced. *)
Definition replace (s searchValue replaceValue : string) : string :=
  match indexOf s searchValue with
  | None => s
  | Some pos =>
      let before := String.substring 0 pos s in
      let tailPos := pos + String.length searchValue in
      let after := String.substring tailPos (String.length s - tailPos) s in
      before +:+ GetSubstitution searchValue before after replaceValue +:+ after
  end.

(** ** Values

    The values [JSON.parse] can produce, and [undefined].  Numbers are the
    integral ones. *)
#[warnings="-register-all"]
Inductive JsValue :=
| JUndefined
| JNull
| JBool (b : bool)
| JNum (n : Z)
| JStr (s : string)
| JArr (xs : list JsValue)
| JObj (fields : list (string * JsValue)).

(** ToBoolean *)
Definition truthy (v : JsValue) : bool :=
  match v with
  | JUndefined | JNull => false
  | JBool b => b
  | JNum n => negb (n =? 0)%Z
  | JStr s => truthy_string s
  | JArr _ | JObj _ => true
  end.

(** [a || b] *)
Definition or_else (a b : JsValue) : JsValue := if truthy a then a else b.

(** [v === undefined] *)
Definition is_undefined (v : JsValue) : bool :=
  match v with JUndefined => true | _ => false end.

Definition Z_to_string (z : Z) : string := NilZero.string_of_int (Z.to_int z).

(** ToString *)
Fixpoint ToString (v : JsValue) : string :=
  match v with
  | JUndefined => "undefined"
  | JNull => "null"
  | JBool true => "true"
  | JBool false => "false"
  | JNum n => Z_to_string n
  | JStr s => s
  | JArr xs =>
      join "," (map (fun x => match x with
                              | JUndefined | JNull => EmptyString
                              | _ => ToString x
                              end) xs)
  | JObj _ => "[object Object]"
  end.

(** A plain object used as a record of named fields ([Record<string, unknown>]):
    reading a missing key gives [undefined]. *)
Definition getProp (o : gmap string JsValue) (k : string) : JsValue :=
  default JUndefined (o !! k).

(** ** Exceptions *)

(** A thrown value.  [err_isError] is [instanceof Error]; the last three
    fields are those [child_process] adds to its errors. *)
Record JsError := {
  err_isError : bool;
  err_name : string;
  err_message : string;
  err_stdout : string;
  err_stderr : string;
  err_killed : bool
}.

Definition mkError (name message : string) : JsError :=
  {| err_isError := true; err_name := name; err_message := message;
     err_stdout := ""; err_stderr := ""; err_killed := false |}.

Definition Error (message : string) : JsError := mkError "Error" message.
Definition TypeError (message : string) : JsError := mkError "TypeError" message.

(** [error instanceof Error ? error.message : fallback] *)
Definition messageOr (fallback : string) (e : JsError) : string :=
  if err_isError e then err_message e else fallback.

(** The result of running a piece of code: it returns or it throws. *)
Inductive outcome (A : Type) :=
| Return (a : A)
| Throw (e : JsError).
Arguments Return {A} a.
Arguments Throw {A} e.

#[global] Instance outcome_ret : MRet outcome := fun A a => Return a.

#[global] Instance outcome_bind : MBind outcome := fun A B k m =>
  match m with
  | Return a => k a
  | Throw e => Throw e
  end.

(** [try { m } catch (e) { h e }] *)
Definition try_catch {A} (m : outcome A) (h : JsError -> outcome A) : outcome A :=
  match m with
  | Return a => Return a
  | Throw e => h e
  end.

(** [Promise.race([p, timeout(ms, message)])]: [p] is what the awaited
    operation did within [ms] milliseconds, [None] when it had not settled
    by then, in which case the timer rejects with [message]. *)
Definition race {A} (p : option (outcome A)) (message : string) : outcome A :=
  match p with
  | Some o => o
  | None => Throw (Error message)
  end.

End Js.
(* ===================================================================== *)
(** * Command safety filter (glm-tool-executor) *)
(* ===================================================================== *)

Module SafetyFilter.
Import Js.

Record DangerCheck := { dangerous : bool; reason : option string }.

(** [isDangerousCommand], rule by rule in the order of the source. *)
Definition isDangerousCommand (command : string) : DangerCheck :=
  let lowerCmd := toLowerCase command in
  if includes lowerCmd "lsof" && (includes lowerCmd "kill" || includes lowerCmd "xargs") then
    {| dangerous := true;
       reason := Some "Cannot use lsof to kill processes - may affect Automaker server" |}
  else if includes lowerCmd "kill -9" || includes lowerCmd "kill -KILL" then
    {| dangerous := true;
       reason := Some "Cannot use kill -9 - use gentler termination methods" |}
  else if (includes lowerCmd "pkill" || includes lowerCmd "killall")
          && negb (includes lowerCmd "next") && negb (includes lowerCmd "node")
          && (includes lowerCmd "pkill -f" || includes lowerCmd "killall") then
    {| dangerous := true;
       reason := Some "Cannot use broad kill commands - be more specific" |}
  else if includes lowerCmd "rm -rf /" && negb (includes lowerCmd "rm -rf /.") then
    {| dangerous := true; reason := Some "Cannot remove root directory" |}
  else if includes lowerCmd "npm run dev" && includes lowerCmd "&" then
    {| dangerous := true;
       reason := Some "Cannot start background dev servers - use Automaker dev server feature instead" |}
  else if (includes lowerCmd "npm start" || includes lowerCmd "npm run start")
          && includes lowerCmd "&" then
    {| dangerous := true;
       reason := Some "Cannot start background servers - use Automaker dev server feature instead" |}
  else {| dangerous := false; reason := None |}.

(** ** The rule table of the specification

    Matching is case-insensitive: a command contains a pattern when the
    case-folded command contains the case-folded pattern. *)

Definition contains_ci (command pattern : string) : bool :=
  includes (toLowerCase command) (toLowerCase pattern).

Definition spec_rule1 (c : string) : bool :=
  contains_ci c "lsof" && (contains_ci c "kill" || contains_ci c "xargs").

Definition spec_rule2 (c : string) : bool :=
  contains_ci c "kill -9" || contains_ci c "kill -KILL".

Definition spec_rule3 (c : string) : bool :=
  (contains_ci c "pkill" || contains_ci c "killall")
  && negb (contains_ci c "next" || contains_ci c "node")
  && (contains_ci c "pkill -f" || contains_ci c "killall").

Definition spec_rule4 (c : string) : bool :=
  contains_ci c "rm -rf /" && negb (contains_ci c "rm -rf /.").

Definition spec_rule5 (c : string) : bool :=
  (contains_ci c "npm run dev" || contains_ci c "npm start" || contains_ci c "npm run start")
  && contains_ci c "&".

Definition spec_matches_any (c : string) : bool :=
  spec_rule1 c || spec_rule2 c || spec_rule3 c || spec_rule4 c || spec_rule5 c.

End SafetyFilter.

(* ===================================================================== *)
(** * MCP client manager (glm-mcp-client) *)
(* ===================================================================== *)

(** The result record shared by the built-in tools and [callTool]. *)
Record ToolResult := {
  success : bool;
  output : string;
  error : option string
}.

(** A tool call ready for dispatch.  The executor reads [input] as a
    record of named fields ([Record<string, unknown>]); the completion loop
    hands over whatever [JSON.parse] returned. *)
Record ToolCall (I : Type) := {
  id : string;
  name : string;
  input : I
}.
Arguments id {I} _.
Arguments name {I} _.
Arguments input {I} _.

Module Mcp.
Import Js.

Definition CONNECTION_TIMEOUT : Z := 30000.
Definition CALL_TIMEOUT : Z := 60000.

Record Tool := {
  tool_name : string;
  tool_description : option string;
  tool_inputSchema : option JsValue
}.

Inductive Transport :=
| StdioClientTransport (command : string) (args : list string) (env : gmap string string)
| SSEClientTransport (url : string)
| StreamableHTTPClientTransport (url : string).

(** [MCPConnection]; the client handle is the number of the [doConnect]
    invocation that created it. *)
Record MCPConnection := {
  client : nat;
  transport : Transport;
  tools : list Tool
}.

Record MCPServerConfig := {
  cfg_type : option string;
  cfg_url : option string;
  cfg_command : option string;
  cfg_args : option (list string);
  cfg_env : option (gmap string string)
}.

(** What the outside world does during one connection attempt:
    [new URL(s)], the process environment, and what [client.connect] and
    [client.listTools] did within the given number of milliseconds
    ([None]: nothing yet when the timer fired). *)
Record Attempt := {
  new_URL : string -> outcome string;
  process_env : gmap string string;
  client_connect : Transport -> Z -> option (outcome unit);
  client_listTools : Z -> option (outcome (option (list Tool)))
}.

(** An optional string in a boolean context. *)
Definition truthy_opt (o : option string) : option string :=
  match o with
  | Some s => if truthy_string s then Some s else None
  | None => None
  end.

Definition createTransport (w : Attempt) (config : MCPServerConfig) : outcome Transport :=
  if decide (cfg_type config = Some "sse") then
    match truthy_opt (cfg_url config) with
    | None => Throw (Error "SSE server requires URL")
    | Some u => u' ← new_URL w u; mret (SSEClientTransport u')
    end
  else if decide (cfg_type config = Some "http") then
    match truthy_opt (cfg_url config) with
    | None => Throw (Error "HTTP server requires URL")
    | Some u => u' ← new_URL w u; mret (StreamableHTTPClientTransport u')
    end
  else
    match truthy_opt (cfg_command config) with
    | None => Throw (Error "Stdio server requires command")
    | Some c =>
        mret (StdioClientTransport c (default [] (cfg_args config))
                (default ∅ (cfg_env config) ∪ process_env w))
    end.

(** The body of the [try] block of [doConnect]. *)
Definition doConnect_try (w : Attempt) (name : string) (config : MCPServerConfig)
    (handle : nat) : outcome MCPConnection :=
  transport ← createTransport w config;
  _ ← race (client_connect w transport CONNECTION_TIMEOUT)
           ("Connection to " +:+ name +:+ " timed out");
  toolsResult ← race (client_listTools w CONNECTION_TIMEOUT)
                     ("Listing tools from " +:+ name +:+ " timed out");
  mret {| client := handle; transport := transport; tools := default [] toolsResult |}.

(** ** The two maps of the class *)

(** A [Map] whose iteration order matters: an association list in
    insertion order. *)
Fixpoint alist_get {V} (k : string) (l : list (string * V)) : option V :=
  match l with
  | [] => None
  | (k', v) :: r => if decide (k = k') then Some v else alist_get k r
  end.

(** [Map.set]: an existing key keeps its place. *)
Fixpoint alist_set {V} (k : string) (v : V) (l : list (string * V)) : list (string * V) :=
  match l with
  | [] => [(k, v)]
  | (k', v') :: r => if decide (k = k') then (k, v) :: r else (k', v') :: alist_set k v r
  end.

(** [connecting] maps a name to the promise of the [doConnect] in
    flight, a promise being identified by the number of its invocation. *)
Record GlmMcpClient := {
  connections : list (string * MCPConnection);
  connecting : gmap string nat
}.

Definition new_GlmMcpClient : GlmMcpClient :=
  {| connections := []; connecting := ∅ |}.

(** ** Queries *)

Record ToolDescriptor := {
  td_serverName : string;
  td_name : string;
  td_description : option string;
  td_inputSchema : option JsValue
}.

Definition getAllTools (this : GlmMcpClient) : list ToolDescriptor :=
  flat_map (fun '(serverName, connection) =>
              map (fun tool => {| td_serverName := serverName;
                                  td_name := tool_name tool;
                                  td_description := tool_description tool;
                                  td_inputSchema := tool_inputSchema tool |})
                  (tools connection))
           (connections this).

Definition has_tool (toolName : string) (connection : MCPConnection) : bool :=
  existsb (fun t => bool_decide (tool_name t = toolName)) (tools connection).

Definition isMcpTool (this : GlmMcpClient) (toolName : string) : bool :=
  existsb (fun '(_, connection) => has_tool toolName connection) (connections this).

Definition findServerForTool (this : GlmMcpClient) (toolName : string) : option string :=
  fst <$> find (fun '(_, connection) => has_tool toolName connection) (connections this).

(** ** Calling a tool *)

Record ContentBlock := { cb_type : string; cb_text : option string }.
Record CallToolResult := { content : option (list ContentBlock) }.

(** The text of the [text] blocks of a result. *)
Definition textParts (blocks : list ContentBlock) : list string :=
  omap (fun c => if bool_decide (cb_type c = "text") then cb_text c else None) blocks.

(** [callTool]; [remote] is [client.callTool] on the given connection:
    how it changes the world and what it did within the given number of
    milliseconds. *)
Definition callTool {W : Type}
    (remote : W -> MCPConnection -> string -> gmap string JsValue -> Z ->
              W * option (outcome CallToolResult))
    (this : GlmMcpClient) (toolName : string) (args : gmap string JsValue) (w : W)
    : W * ToolResult :=
  match findServerForTool this toolName with
  | None =>
      (w, {| success := false; output := "";
             error := Some ("Tool " +:+ dquote +:+ toolName +:+ dquote +:+
                            " not found in any MCP server") |})
  | Some serverName =>
      match alist_get serverName (connections this) with
      | None =>
          (w, {| success := false; output := "";
                 error := Some ("MCP server " +:+ dquote +:+ serverName +:+ dquote +:+
                                " not connected") |})
      | Some connection =>
          let '(w', settled) := remote w connection toolName args CALL_TIMEOUT in
          match race settled ("Tool call " +:+ toolName +:+ " timed out") with
          | Return result =>
              (w', {| success := true;
                      output := join LF (textParts (default [] (content result)));
                      error := None |})
          | Throw e =>
              (w', {| success := false; output := "";
                      error := Some (messageOr "Unknown error" e) |})
          end
      end
  end.

(** ** Connecting: promises and their interleaving

    [connect] and [doConnect] are asynchronous.  A run of the client is a
    sequence of events: a call of [connect] runs up to its first [await];
    a [doConnect] in flight completes; a suspended call of [connect]
    resumes.  Events for different calls interleave freely. *)

Inductive PromiseState (A : Type) :=
| Pending
| Settled (o : outcome A).
Arguments Pending {A}.
Arguments Settled {A} o.

(** One invocation of [doConnect], i.e. the promise it returned. *)
Record Job := {
  job_name : string;
  job_config : MCPServerConfig;
  job_state : PromiseState (option MCPConnection)
}.

(** One invocation of [connect]. *)
Inductive Call :=
| AwaitExisting (j : nat)              (** it returned the promise in flight *)
| AwaitOwn (name : string) (j : nat)   (** it awaits its own [doConnect] inside [try] *)
| Finished (o : outcome (option MCPConnection)).

Record Runtime := {
  this : GlmMcpClient;
  promises : list Job;
  calls : list Call
}.

Definition fresh : Runtime :=
  {| this := new_GlmMcpClient; promises := []; calls := [] |}.

(** [connect(name, config)] up to its first [await]; the number of the
    call is returned with the new state. *)
Definition connect (name : string) (config : MCPServerConfig) (rt : Runtime) : Runtime * nat :=
  let c := length (calls rt) in
  match connecting (this rt) !! name with
  | Some existingPromise =>
      ({| this := this rt; promises := promises rt;
          calls := calls rt ++ [AwaitExisting existingPromise] |}, c)
  | None =>
      match alist_get name (connections (this rt)) with
      | Some connection =>
          ({| this := this rt; promises := promises rt;
              calls := calls rt ++ [Finished (Return (Some connection))] |}, c)
      | None =>
          let connectPromise := length (promises rt) in
          ({| this := {| connections := connections (this rt);
                         connecting := <[name := connectPromise]> (connecting (this rt)) |};
              promises := promises rt ++ [{| job_name := name; job_config := config;
                                             job_state := Pending |}];
              calls := calls rt ++ [AwaitOwn name connectPromise] |}, c)
      end
  end.

(** [doConnect] for promise [j] runs to completion in world [w]: a
    connection is stored under its name, any failure becomes [null]. *)
Definition doConnect (j : nat) (w : Attempt) (rt : Runtime) : option Runtime :=
  match promises rt !! j with
  | Some {| job_name := name; job_config := config; job_state := Pending |} =>
      match doConnect_try w name config j with
      | Return connection =>
          Some {| this := {| connections := alist_set name connection (connections (this rt));
                             connecting := connecting (this rt) |};
                  promises := <[j := {| job_name := name; job_config := config;
                                        job_state := Settled (Return (Some connection)) |}]>
                                (promises rt);
                  calls := calls rt |}
      | Throw _ =>
          Some {| this := this rt;
                  promises := <[j := {| job_name := name; job_config := config;
                                        job_state := Settled (Return None) |}]> (promises rt);
                  calls := calls rt |}
      end
  | _ => None
  end.

Definition settled_outcome (rt : Runtime) (j : nat) : option (outcome (option MCPConnection)) :=
  match promises rt !! j with
  | Some {| job_state := Settled o |} => Some o
  | _ => None
  end.

(** A suspended call of [connect] continues once the promise it awaits
    has settled; the call that started the [doConnect] runs its
    [finally] block. *)
Definition resume (c : nat) (rt : Runtime) : option Runtime :=
  match calls rt !! c with
  | Some (AwaitExisting j) =>
      o ← settled_outcome rt j;
      Some {| this := this rt; promises := promises rt;
              calls := <[c := Finished o]> (calls rt) |}
  | Some (AwaitOwn name j) =>
      o ← settled_outcome rt j;
      Some {| this := {| connections := connections (this rt);
                         connecting := delete name (connecting (this rt)) |};
              promises := promises rt;
              calls := <[c := Finished o]> (calls rt) |}
  | _ => None
  end.

Inductive Event :=
| CallConnect (name : string) (config : MCPServerConfig)
| DoConnectCompletes (j : nat) (w : Attempt)
| Resume (c : nat).

Definition step (rt : Runtime) (ev : Event) : option Runtime :=
  match ev with
  | CallConnect name config => Some (fst (connect name config rt))
  | DoConnectCompletes j w => doConnect j w rt
  | Resume c => resume c rt
  end.

Fixpoint run (rt : Runtime) (evs : list Event) : option Runtime :=
  match evs with
  | [] => Some rt
  | ev :: evs' => rt' ← step rt ev; run rt' evs'
  end.

(** The result a call of [connect] has delivered, if it has. *)
Definition call_result (rt : Runtime) (c : nat) : option (outcome (option MCPConnection)) :=
  match calls rt !! c with
  | Some (Finished o) => Some o
  | _ => None
  end.

(** [initialize(mcpServers)] up to its [await]: one call of [connect] per
    server name, in key order. *)
Fixpoint initialize_calls (mcpServers : list (string * MCPServerConfig)) (rt : Runtime)
    : Runtime * list nat :=
  match mcpServers with
  | [] => (rt, [])
  | (name, config) :: rest =>
      let '(rt1, c) := connect name config rt in
      let '(rt2, cs) := initialize_calls rest rt1 in
      (rt2, c :: cs)
  end.

(** [Promise.all] over the calls [cs]: rejected as soon as one of them is,
    fulfilled once all are. *)
Fixpoint promise_all (rt : Runtime) (cs : list nat) : PromiseState unit :=
  match cs with
  | [] => Settled (Return tt)
  | c :: cs' =>
      match call_result rt c with
      | Some (Throw e) => Settled (Throw e)
      | Some (Return _) => promise_all rt cs'
      | None =>
          match promise_all rt cs' with
          | Settled (Throw e) => Settled (Throw e)
          | _ => Pending
          end
      end
  end.

(** ** Closing

    [close()]: each connection in turn is closed inside [try]/[catch], then
    the map is cleared.  [client_close] is what [client.close()] does for
    a connection; the first component lists the client handles whose
    close was attempted. *)
Fixpoint close_each (client_close : MCPConnection -> outcome unit)
    (conns : list (string * MCPConnection)) : list nat * outcome unit :=
  match conns with
  | [] => ([], Return tt)
  | (_, connection) :: rest =>
      match try_catch (client_close connection) (fun _ => Return tt) with
      | Return _ =>
          let '(attempted, result) := close_each client_close rest in
          (client connection :: attempted, result)
      | Throw e => ([client connection], Throw e)
      end
  end.

Definition close (client_close : MCPConnection -> outcome unit) (this : GlmMcpClient)
    : list nat * outcome GlmMcpClient :=
  let '(attempted, result) := close_each client_close (connections this) in
  (attempted,
   _ ← result; mret {| connections := []; connecting := connecting this |}).

(** Progress without new calls: the [doConnect] of promise [j] completes
    in the world [world j], or call [c] resumes. *)
Inductive Progress :=
| Completes (j : nat)
| Resumes (c : nat).

Definition progress_event (world : nat -> Attempt) (p : Progress) : Event :=
  match p with
  | Completes j => DoConnectCompletes j (world j)
  | Resumes c => Resume c
  end.

(** Call [c] observes promise [j]: it awaits it, or it has finished with
    the outcome the promise settled with. *)
Definition observes (rt : Runtime) (j c : nat) : Prop :=
  match calls rt !! c with
  | Some (AwaitExisting j') => j' = j
  | Some (AwaitOwn _ j') => j' = j
  | Some (Finished o) => settled_outcome rt j = Some o
  | None => False
  end.

(** What the promise of [doConnect] resolves with in world [w]: the
    connection, or [null] when anything in the [try] block threw. *)
Definition doConnect_value (w : Attempt) (name : string) (config : MCPServerConfig)
    (handle : nat) : option MCPConnection :=
  match doConnect_try w name config handle with
  | Return connection => Some connection
  | Throw _ => None
  end.

(** The states [initialize(mcpServers)] on a new client can be in while
    its calls make progress in the worlds [world]: server number [j] has
    promise and call number [j]; its [doConnect] is in flight and it is
    not connected, or it has settled with [doConnect_value] and the
    connection map agrees, the call still suspended or finished with that
    value.  No other name is connected. *)
Definition initializing (mcpServers : list (string * MCPServerConfig))
    (world : nat -> Attempt) (rt : Runtime) : Prop :=
  length (promises rt) = length mcpServers /\
  length (calls rt) = length mcpServers /\
  (forall name, name ∉ mcpServers.*1 -> alist_get name (connections (this rt)) = None) /\
  (forall j name config,
     mcpServers !! j = Some (name, config) ->
     (promises rt !! j = Some {| job_name := name; job_config := config;
                                 job_state := Pending |} /\
      alist_get name (connections (this rt)) = None /\
      calls rt !! j = Some (AwaitOwn name j))
     \/
     (promises rt !! j = Some {| job_name := name; job_config := config;
                                 job_state := Settled (Return (doConnect_value (world j)
                                                                 name config j)) |} /\
      alist_get name (connections (this rt)) = doConnect_value (world j) name config j /\
      (calls rt !! j = Some (AwaitOwn name j) \/
       calls rt !! j = Some (Finished (Return (doConnect_value (world j) name config j)))))).

End Mcp.

(* ===================================================================== *)
(** * Built-in tool executor (glm-tool-executor) *)
(* ===================================================================== *)

Module ToolExecutor.
Import Js SafetyFilter Mcp.

Record Dirent := { dirent_name : string; dirent_isDirectory : bool }.

(** The options passed to [execSync]. *)
Record ExecOptions := {
  opt_cwd : option string;
  opt_env_PATH : option string;
  opt_timeout : option Z;
  opt_maxBuffer : Z;
  opt_shell : option string
}.

(** The Node.js library and the machine behind it: path manipulation, the
    file system, the shell and the remote MCP servers.  [W] is the state
    of that world; an operation that can fail returns an [outcome]. *)
Class Platform (W : Type) := {
  path_isAbsolute : string -> bool;
  path_join : string -> string -> string;
  path_dirname : string -> string;
  process_env_PATH : W -> string;
  fs_readFileSync : W -> string -> outcome string;
  fs_existsSync : W -> string -> bool;
  fs_mkdirSync : W -> string -> W * outcome unit;
  fs_writeFileSync : W -> string -> JsValue -> W * outcome unit;
  fs_readdirSync : W -> string -> outcome (list Dirent);
  execSync : W -> string -> ExecOptions -> W * outcome string;
  client_callTool : W -> MCPConnection -> string -> gmap string JsValue -> Z ->
                    W * option (outcome CallToolResult)
}.

Definition failure (message : string) : ToolResult :=
  {| success := false; output := ""; error := Some message |}.

Definition succeeded (out : string) : ToolResult :=
  {| success := true; output := out; error := None |}.

(** A result that reports failure says why. *)
Definition explained (r : ToolResult) : Prop :=
  success r = false -> is_Some (error r).

Definition returns_explained {W : Type} (res : W * outcome ToolResult) : Prop :=
  match res.2 with
  | Return r => explained r
  | Throw _ => True
  end.

(** The names the [switch] of [executeTool] knows. *)
Definition builtin_names : list string :=
  ["read"; "write"; "edit"; "bash"; "glob"; "grep"; "list"; "ls"].

Section Tools.
Context {W : Type} `{Platform W}.

(** [path.isAbsolute(p) ? p : path.join(cwd, p)]; the [path] functions
    throw a [TypeError] on anything but a string. *)
Definition resolvePath (cwd : string) (p : JsValue) : outcome string :=
  match p with
  | JStr s => Return (if path_isAbsolute s then s else path_join cwd s)
  | _ => Throw (TypeError ("The " +:+ dquote +:+ "path" +:+ dquote +:+
                           " argument must be of type string"))
  end.

(** [input.a || input.b || input.c] *)
Definition alias3 (input : gmap string JsValue) (a b c : string) : JsValue :=
  or_else (or_else (getProp input a) (getProp input b)) (getProp input c).

(** [input.a || input.b] *)
Definition alias2 (input : gmap string JsValue) (a b : string) : JsValue :=
  or_else (getProp input a) (getProp input b).

Definition executeRead (input : gmap string JsValue) (cwd : string) (w : W)
    : W * outcome ToolResult :=
  let filePath := alias3 input "file_path" "path" "file" in
  if negb (truthy filePath) then (w, Return (failure "file_path is required"))
  else
    match resolvePath cwd filePath with
    | Throw e => (w, Throw e)
    | Return fullPath =>
        match fs_readFileSync w fullPath with
        | Return content => (w, Return (succeeded content))
        | Throw e =>
            (w, Return (failure ("Failed to read file: " +:+ messageOr "Unknown error" e)))
        end
    end.

Definition executeWrite (input : gmap string JsValue) (cwd : string) (w : W)
    : W * outcome ToolResult :=
  let filePath := alias3 input "file_path" "path" "file" in
  let content := alias3 input "content" "text" "data" in
  if negb (truthy filePath) then (w, Return (failure "file_path is required"))
  else if is_undefined content then (w, Return (failure "content is required"))
  else
    match resolvePath cwd filePath with
    | Throw e => (w, Throw e)
    | Return fullPath =>
        let write_failed e :=
          Return (failure ("Failed to write file: " +:+ messageOr "Unknown error" e)) in
        let dir := path_dirname fullPath in
        let '(w1, made) :=
          if negb (fs_existsSync w dir) then fs_mkdirSync w dir else (w, Return tt) in
        match made with
        | Throw e => (w1, write_failed e)
        | Return _ =>
            let '(w2, written) := fs_writeFileSync w1 fullPath content in
            match written with
            | Throw e => (w2, write_failed e)
            | Return _ =>
                (w2, Return (succeeded ("Successfully wrote to " +:+ ToString filePath)))
            end
        end
    end.

Definition executeEdit (input : gmap string JsValue) (cwd : string) (w : W)
    : W * outcome ToolResult :=
  let filePath := alias3 input "file_path" "path" "file" in
  let oldStr := alias3 input "old_string" "old" "find" in
  let newStr := alias3 input "new_string" "new" "replace" in
  if negb (truthy filePath) then (w, Return (failure "file_path is required"))
  else if is_undefined oldStr then (w, Return (failure "old_string is required"))
  else if is_undefined newStr then (w, Return (failure "new_string is required"))
  else
    match resolvePath cwd filePath with
    | Throw e => (w, Throw e)
    | Return fullPath =>
        let edit_failed e :=
          Return (failure ("Failed to edit file: " +:+ messageOr "Unknown error" e)) in
        match fs_readFileSync w fullPath with
        | Throw e => (w, edit_failed e)
        | Return content =>
            if negb (includes content (ToString oldStr)) then
              (w, Return (failure
                 "Could not find the specified text in the file. Make sure old_string matches exactly."))
            else
              let content' := replace content (ToString oldStr) (ToString newStr) in
              let '(w1, written) := fs_writeFileSync w fullPath (JStr content') in
              match written with
              | Throw e => (w1, edit_failed e)
              | Return _ =>
                  (w1, Return (succeeded ("Successfully edited " +:+ ToString filePath)))
              end
        end
    end.

(** The edit the documentation of the tool describes: the first
    occurrence of [old] replaced by the text [new], taken literally. *)
Definition replaceFirstLiteral (content old new : string) : string :=
  match indexOf content old with
  | None => content
  | Some pos =>
      let tailPos := pos + String.length old in
      String.substring 0 pos content +:+ new +:+
      String.substring tailPos (String.length content - tailPos) content
  end.

Definition executeBash (input : gmap string JsValue) (cwd : string) (w : W)
    : W * outcome ToolResult :=
  let command := alias2 input "command" "cmd" in
  if negb (truthy command) then (w, Return (failure "command is required"))
  else
    match command with
    | JStr cmd =>
        let dangerCheck := isDangerousCommand cmd in
        if dangerous dangerCheck then
          (w, Return (failure (or_string (default "" (reason dangerCheck))
                                         "Command blocked for safety")))
        else
          let opts :=
            {| opt_cwd := Some cwd;
               opt_env_PATH := Some ("/opt/homebrew/bin:/usr/local/bin:" +:+ process_env_PATH w);
               opt_timeout := Some 30000%Z;
               opt_maxBuffer := (10 * 1024 * 1024)%Z;
               opt_shell := Some "/bin/zsh" |} in
          let '(w1, ran) := execSync w cmd opts in
          match ran with
          | Return out => (w1, Return (succeeded (trim out)))
          | Throw execError =>
              let stdout := err_stdout execError in
              let stderr := err_stderr execError in
              if err_killed execError then
                (w1, Return {| success := false; output := stdout;
                               error := Some "Command timed out after 30 seconds" |})
              else
                (w1, Return {| success := false; output := stdout;
                               error := Some (or_string stderr
                                                (or_string (err_message execError)
                                                           "Command failed")) |})
          end
    | _ => (w, Throw (TypeError "command.toLowerCase is not a function"))
    end.

Definition executeGlob (input : gmap string JsValue) (cwd : string) (w : W)
    : W * outcome ToolResult :=
  let pattern := alias2 input "pattern" "glob" in
  if negb (truthy pattern) then (w, Return (failure "pattern is required"))
  else
    let opts := {| opt_cwd := Some cwd; opt_env_PATH := None; opt_timeout := None;
                   opt_maxBuffer := (10 * 1024 * 1024)%Z; opt_shell := None |} in
    let '(w1, ran) :=
      execSync w ("find . -name " +:+ dquote +:+ ToString pattern +:+ dquote +:+
                  " -type f 2>/dev/null | head -100") opts in
    match ran with
    | Return out => (w1, Return (succeeded (or_string (trim out) "No files found")))
    | Throw e => (w1, Return (failure ("Glob failed: " +:+ messageOr "Unknown error" e)))
    end.

Definition executeGrep (input : gmap string JsValue) (cwd : string) (w : W)
    : W * outcome ToolResult :=
  let pattern := alias3 input "pattern" "query" "search" in
  let searchPath := or_else (alias2 input "path" "directory") (JStr ".") in
  if negb (truthy pattern) then (w, Return (failure "pattern is required"))
  else
    let grep_failed e :=
      Return (failure ("Grep failed: " +:+ messageOr "Unknown error" e)) in
    match resolvePath cwd searchPath with
    | Throw e => (w, grep_failed e)
    | Return fullPath =>
        let opts := {| opt_cwd := None; opt_env_PATH := None; opt_timeout := None;
                       opt_maxBuffer := (10 * 1024 * 1024)%Z; opt_shell := None |} in
        let '(w1, ran) :=
          execSync w ("grep -r -n " +:+ dquote +:+ ToString pattern +:+ dquote +:+ " " +:+
                      dquote +:+ fullPath +:+ dquote +:+ " 2>/dev/null || true") opts in
        match ran with
        | Return out => (w1, Return (succeeded (or_string (trim out) "No matches found")))
        | Throw e => (w1, grep_failed e)
        end
    end.

Definition executeList (input : gmap string JsValue) (cwd : string) (w : W)
    : W * outcome ToolResult :=
  let dirPath := or_else (alias2 input "path" "directory") (JStr ".") in
  match resolvePath cwd dirPath with
  | Throw e => (w, Throw e)
  | Return fullPath =>
      match fs_readdirSync w fullPath with
      | Return entries =>
          (w, Return (succeeded
                 (join LF (map (fun entry =>
                                  (if dirent_isDirectory entry then "[DIR]" else "[FILE]")
                                  +:+ " " +:+ dirent_name entry) entries))))
      | Throw e =>
          (w, Return (failure ("Failed to list directory: " +:+ messageOr "Unknown error" e)))
      end
  end.

(** The message of the [default] branch of [executeTool]. *)
Definition unknown_tool_message (mcpClient : GlmMcpClient) (name : string) : string :=
  let mcpToolNames := join ", " (map td_name (getAllTools mcpClient)) in
  "Unknown tool: " +:+ name +:+
  ". Built-in tools: Read, Write, Edit, Bash, Glob, Grep, List. MCP tools: " +:+
  or_string mcpToolNames "none configured".

(** The [switch] of [executeTool]. *)
Definition builtin (mcpClient : GlmMcpClient) (name : string)
    (input : gmap string JsValue) (cwd : string) (w : W) : W * outcome ToolResult :=
  let n := toLowerCase name in
  if String.eqb n "read" then executeRead input cwd w
  else if String.eqb n "write" then executeWrite input cwd w
  else if String.eqb n "edit" then executeEdit input cwd w
  else if String.eqb n "bash" then executeBash input cwd w
  else if String.eqb n "glob" then executeGlob input cwd w
  else if String.eqb n "grep" then executeGrep input cwd w
  else if String.eqb n "list" || String.eqb n "ls" then executeList input cwd w
  else (w, Return (failure (unknown_tool_message mcpClient name))).

(** [executeTool]: MCP tools are routed to the client, the built-in ones
    run inside [try]/[catch]. *)
Definition executeTool (mcpClient : GlmMcpClient)
    (toolCall : ToolCall (gmap string JsValue)) (cwd : string)
    (w : W) : W * outcome ToolResult :=
  if isMcpTool mcpClient (name toolCall) then
    let '(w1, result) := callTool client_callTool mcpClient (name toolCall) (input toolCall) w in
    (w1, Return result)
  else
    let '(w1, result) := builtin mcpClient (name toolCall) (input toolCall) cwd w in
    (w1, try_catch result (fun e => Return (failure (messageOr "Unknown error" e)))).

End Tools.

(** ** A small world for running the tools

    Files are a finite map from absolute paths to contents; every directory
    exists; there is no shell and no MCP server. *)
#[export] Instance MemoryFs : Platform (gmap string string) := {|
  path_isAbsolute := fun p => startsWith p "/";
  path_join := fun a b => a +:+ "/" +:+ b;
  path_dirname := fun _ => "/";
  process_env_PATH := fun _ => "/usr/bin:/bin";
  fs_readFileSync := fun w p =>
    match w !! p with
    | Some content => Return content
    | None => Throw (Error ("ENOENT: no such file or directory, open '" +:+ p +:+ "'"))
    end;
  fs_existsSync := fun _ _ => true;
  fs_mkdirSync := fun w _ => (w, Return tt);
  fs_writeFileSync := fun w p data =>
    match data with
    | JStr s => (<[p := s]> w, Return tt)
    | _ => (w, Throw (TypeError ("The " +:+ dquote +:+ "data" +:+ dquote +:+
                                 " argument must be of type string")))
    end;
  fs_readdirSync := fun w p =>
    Throw (Error ("ENOENT: no such file or directory, scandir '" +:+ p +:+ "'"));
  execSync := fun w _ _ => (w, Throw (Error "spawnSync /bin/zsh ENOENT"));
  client_callTool := fun w _ _ _ _ => (w, None)
|}.

End ToolExecutor.

(* ===================================================================== *)
(** * Streaming completion loop (glm-provider) *)
(* ===================================================================== *)

Module Provider.
Import Js.

Definition ZAI_ENDPOINTS_codingPlan : string := "https://api.z.ai/api/coding/paas/v4".
Definition ZAI_ENDPOINTS_chat : string := "https://chat.z.ai/api/chat".

Definition MAX_RETRIES : nat := 3.
Definition FETCH_TIMEOUT : Z := 120000.

(** ** Messages *)

Inductive ContentBlock :=
| TextBlock (text : string)
| ImageUrlBlock (image_url : JsValue).

Inductive Content :=
| Text (s : string)
| Blocks (bs : list ContentBlock).

(** A tool call as accumulated from the stream and as sent back in an
    assistant message. *)
Record ToolCallRef := {
  tc_id : string;
  tc_name : string;
  tc_arguments : string
}.

Record Message := {
  role : string;
  content : Content;
  tool_calls : option (list ToolCallRef);
  tool_call_id : option string
}.

(** ** Options of a query *)

(** A block of a prompt or of a history message; a missing [text] is the
    empty string. *)
Record InputBlock := {
  ib_type : string;
  ib_text : string;
  ib_source : option JsValue
}.

Inductive Prompt :=
| PromptText (s : string)
| PromptBlocks (bs : list InputBlock).

Record ConversationMessage := {
  cm_role : string;
  cm_content : Prompt
}.

Inductive SystemPrompt :=
| SystemText (s : string)
| SystemPreset (preset : string) (append : option string).

Record ExecuteOptions := {
  prompt : Prompt;
  model : option string;
  systemPrompt : option SystemPrompt;
  conversationHistory : list ConversationMessage;
  allowedTools : list string;
  cwd : option string;
  maxTurns : option nat
}.

Definition convertBlock (block : InputBlock) : ContentBlock :=
  if String.eqb (ib_type block) "text" && truthy_string (ib_text block) then
    TextBlock (ib_text block)
  else
    match ib_source block with
    | Some source =>
        if String.eqb (ib_type block) "image" && truthy source then ImageUrlBlock source
        else TextBlock ""
    | None => TextBlock ""
    end.

Definition convertContent (c : Prompt) : Content :=
  match c with
  | PromptText s => Text s
  | PromptBlocks bs => Blocks (map convertBlock bs)
  end.

Definition convertToOpenAIMessage (msg : ConversationMessage) : Message :=
  {| role := cm_role msg; content := convertContent (cm_content msg);
     tool_calls := None; tool_call_id := None |}.

Definition claude_code_preset : string :=
"You are an expert software developer with deep knowledge of multiple programming languages, frameworks, and best practices.

Your role is to help users with coding tasks, including:
- Writing, reviewing, and refactoring code
- Debugging and fixing issues
- Architecting software solutions
- Explaining technical concepts
- Following project-specific conventions and patterns

When writing code:
1. Follow existing code style and conventions
2. Write clean, maintainable, and well-documented code
3. Consider performance, security, and scalability
4. Add appropriate error handling
5. Use meaningful variable and function names

When debugging:
1. Analyze problem systematically
2. Identify root cause
3. Propose and implement a fix
4. Verify solution works
5. Explain what went wrong and how to prevent similar issues

Be thorough but concise. Focus on delivering working solutions.".

Definition getSystemPromptText (sp : SystemPrompt) : string :=
  match sp with
  | SystemText s => s
  | SystemPreset preset append =>
      let text := if String.eqb preset "claude_code" then claude_code_preset else "" in
      match append with
      | Some a => if truthy_string a then text +:+ LF +:+ LF +:+ a else text
      | None => text
      end
  end.

(** The message list before the first turn: system prompt (if any), the
    history, then the current prompt. *)
Definition initialMessages (options : ExecuteOptions) : list Message :=
  let system :=
    match systemPrompt options with
    | Some (SystemText s) =>
        if truthy_string s then
          [{| role := "system"; content := Text s; tool_calls := None; tool_call_id := None |}]
        else []
    | Some sp =>
        [{| role := "system"; content := Text (getSystemPromptText sp);
            tool_calls := None; tool_call_id := None |}]
    | None => []
    end in
  system
  ++ map convertToOpenAIMessage (conversationHistory options)
  ++ [{| role := "user"; content := convertContent (prompt options);
         tool_calls := None; tool_call_id := None |}].

(** ** History trimming *)

(** [xs.slice(-n)] *)
Definition slice_last {A} (n : nat) (xs : list A) : list A :=
  drop (length xs - n) xs.

(** The trimming block of the turn loop: above 42 messages, keep
    [messages[0]] and the last 40. *)
Definition trimHistory (messages : list Message) : list Message :=
  if 42 <? length messages then
    match messages with
    | systemMsg :: _ => systemMsg :: slice_last 40 messages
    | [] => []
    end
  else messages.

(** ** The world of a query *)

Record Credentials := { zai : string; zaiChat : string }.

(** One streamed tool-call fragment; absent strings are empty. *)
Record ToolCallDelta := {
  tcd_index : option nat;
  tcd_id : string;
  tcd_name : string;
  tcd_arguments : string
}.

(** The [delta] of one well-formed [data:] line. *)
Record Delta := {
  delta_content : string;
  delta_tool_calls : list ToolCallDelta
}.

(** One successful [reader.read()]: the deltas of the data lines the
    chunk completes (malformed lines and [[DONE]] contribute nothing), and
    the state of the caller's abort signal when the loop checks it. *)
Record Chunk := {
  chunk_aborted : bool;
  chunk_deltas : list Delta
}.

Inductive StreamEnd :=
| Done
| ReadRejects (e : JsError).

Record Response := {
  ok : bool;
  status : nat;
  text : outcome string;
  body : option (list Chunk * StreamEnd)
}.

Inductive FetchOutcome :=
| FetchRejects (e : JsError)
| FetchResolves (r : Response).

(** What the world does during one turn: the abort signal at the start
    of the turn and the outcome of each fetch attempt. *)
Record TurnScript := {
  aborted : bool;
  fetched : nat -> FetchOutcome
}.

(** ** Observable effects *)

Inductive ProviderMessage :=
| ErrorMessage (error : string)
| AssistantText (text : string)
| AssistantToolUse (tool_use_id name : string) (input : JsValue)
| ResultMessage (result : string).

Record RequestBody := {
  rb_model : string;
  rb_messages : list Message;
  rb_tools : option (list string)
}.

Inductive Effect :=
| Yield (m : ProviderMessage)
| Fetch (attempt : nat) (url apiKey : string) (body : RequestBody) (timeout : Z)
| Sleep (ms : Z)
| Execute (toolCall : ToolCall JsValue) (cwd : string).

(** Projections of a trace: the request bodies sent, the attempt numbers,
    the per-attempt timeouts, the backoff delays, the tool calls handed
    to the executor and the messages yielded to the caller. *)
Definition requests (trace : list Effect) : list RequestBody :=
  omap (fun e => match e with Fetch _ _ _ body _ => Some body | _ => None end) trace.

Definition attempts (trace : list Effect) : list nat :=
  omap (fun e => match e with Fetch attempt _ _ _ _ => Some attempt | _ => None end) trace.

Definition timeouts (trace : list Effect) : list Z :=
  omap (fun e => match e with Fetch _ _ _ _ timeout => Some timeout | _ => None end) trace.

Definition sleeps (trace : list Effect) : list Z :=
  omap (fun e => match e with Sleep ms => Some ms | _ => None end) trace.

Definition executed (trace : list Effect) : list (ToolCall JsValue) :=
  omap (fun e => match e with Execute toolCall _ => Some toolCall | _ => None end) trace.

Definition yielded (trace : list Effect) : list ProviderMessage :=
  omap (fun e => match e with Yield m => Some m | _ => None end) trace.

Definition is_error (m : ProviderMessage) : bool :=
  match m with ErrorMessage _ => true | _ => false end.

(** The terminal messages of a query: an error or the result. *)
Definition is_terminal (e : Effect) : bool :=
  match e with
  | Yield (ErrorMessage _) | Yield (ResultMessage _) => true
  | _ => false
  end.

(** The text yielded to the caller, in order, as one string. *)
Definition streamed_text (trace : list Effect) : string :=
  foldr (fun e rest => match e with
                       | Yield (AssistantText t) => t +:+ rest
                       | _ => rest
                       end) "" trace.

(** The fetches of a trace: attempt number, URL, key and timeout. *)
Definition fetches (trace : list Effect) : list (nat * string * string * Z) :=
  omap (fun e => match e with
                 | Fetch attempt url apiKey _ timeout => Some (attempt, url, apiKey, timeout)
                 | _ => None
                 end) trace.

(** ** Framing of the event stream

    The reading loop appends each decoded chunk to a buffer, splits the
    buffer at line feeds, keeps the last piece as the new buffer and
    handles the pieces before it. *)

(** [s.split('\n')] *)
Fixpoint split_lines (s : string) : list string :=
  match s with
  | EmptyString => [EmptyString]
  | String c r =>
      if Ascii.eqb c (ascii_of_nat 10) then EmptyString :: split_lines r
      else match split_lines r with
           | first :: rest => String c first :: rest
           | [] => [String c EmptyString]
           end
  end.

(** [buffer += chunk; lines = buffer.split('\n'); buffer = lines.pop() || ''] *)
Definition feed (buffer chunk : string) : list string * string :=
  let lines := split_lines (buffer +:+ chunk) in
  (removelast lines, or_string (List.last lines "") "").

(** The payload of a line the loop goes on to parse: the text after
    [data: ], unless the line is something else or the [[DONE]] mark. *)
Definition data_of_line (line : string) : option string :=
  if startsWith line "data: " then
    let data := String.substring 6 (String.length line - 6) line in
    if String.eqb data "[DONE]" then None else Some data
  else None.

(** The lines handled while reading the chunks, from a given buffer, and
    the buffer left when the stream ends. *)
Fixpoint read_lines (buffer : string) (chunks : list string) : list string * string :=
  match chunks with
  | [] => ([], buffer)
  | chunk :: rest =>
      let '(lines, buffer1) := feed buffer chunk in
      let '(later, buffer2) := read_lines buffer1 rest in
      (lines ++ later, buffer2)
  end.

(** What an effect of the turn loop can be: a fetch of the chosen URL
    with the chosen key, the fixed timeout, an attempt number from 1 to
    [MAX_RETRIES] and at most 42 messages; a wait of 2s or 4s; a piece of
    text that is not empty; a tool-use notice and the execution of a tool
    call, both with an id and a name, in the working directory; a
    terminal message. *)
Definition loop_effect (url apiKey workingDir : string) (e : Effect) : Prop :=
  match e with
  | Fetch attempt u k body timeout =>
      u = url /\ k = apiKey /\ timeout = FETCH_TIMEOUT /\
      1 <= attempt <= MAX_RETRIES /\ length (rb_messages body) <= 42
  | Sleep ms => ms = 2000%Z \/ ms = 4000%Z
  | Yield (AssistantText t) => t <> ""
  | Yield (AssistantToolUse i n _) => i <> "" /\ n <> ""
  | Execute toolCall dir => id toolCall <> "" /\ name toolCall <> "" /\ dir = workingDir
  | Yield (ErrorMessage _) | Yield (ResultMessage _) => True
  end.

(** What holds of a request body: its messages are a trimmed history, at
    most 42 of them, and the first is [first]. *)
Definition sent_trimmed (first : Message) (body : RequestBody) : Prop :=
  (exists messages, rb_messages body = trimHistory messages) /\
  length (rb_messages body) <= 42 /\
  head (rb_messages body) = Some first.

(** The retry policy as the specification words it: three attempts, with
    waits of 2s, 4s and 8s between them, two minutes allowed to each, and
    an error message at the end. *)
Definition retry_policy_as_specified (trace : list Effect) : Prop :=
  length (attempts trace) = 3 /\
  sleeps trace = [2000; 4000; 8000]%Z /\
  timeouts trace = [120000; 120000; 120000]%Z /\
  exists error, last trace = Some (Yield (ErrorMessage error)).

(** ** Stream accumulation *)

(** [arr[idx] = v] on a sparse array: holes are [None]. *)
Definition array_set {A} (idx : nat) (v : A) (arr : list (option A)) : list (option A) :=
  if idx <? length arr then <[idx := Some v]> arr
  else arr ++ replicate (idx - length arr) None ++ [Some v].

Definition applyToolCallDelta (turnToolCalls : list (option ToolCallRef)) (tc : ToolCallDelta)
    : list (option ToolCallRef) :=
  let idx := default 0 (tcd_index tc) in
  let cur :=
    match turnToolCalls !! idx with
    | Some (Some existing) => existing
    | _ => {| tc_id := or_string (tcd_id tc) ("call_" +:+ nat_to_string idx);
              tc_name := ""; tc_arguments := "" |}
    end in
  let cur1 := if truthy_string (tcd_id tc)
              then {| tc_id := tcd_id tc; tc_name := tc_name cur;
                      tc_arguments := tc_arguments cur |} else cur in
  let cur2 := if truthy_string (tcd_name tc)
              then {| tc_id := tc_id cur1; tc_name := tcd_name tc;
                      tc_arguments := tc_arguments cur1 |} else cur1 in
  let cur3 := if truthy_string (tcd_arguments tc)
              then {| tc_id := tc_id cur2; tc_name := tc_name cur2;
                      tc_arguments := tc_arguments cur2 +:+ tcd_arguments tc |} else cur2 in
  array_set idx cur3 turnToolCalls.

(** The accumulators of one turn's stream. *)
Record Accum := {
  turnContent : string;
  totalContent : string;
  turnToolCalls : list (option ToolCallRef)
}.

Definition applyDelta (acc : Accum) (delta : Delta) : list Effect * Accum :=
  let '(out, tcont, total) :=
    if truthy_string (delta_content delta) then
      ([Yield (AssistantText (delta_content delta))],
       turnContent acc +:+ delta_content delta,
       totalContent acc +:+ delta_content delta)
    else ([], turnContent acc, totalContent acc) in
  (out, {| turnContent := tcont; totalContent := total;
           turnToolCalls := foldl applyToolCallDelta (turnToolCalls acc)
                                  (delta_tool_calls delta) |}).

Fixpoint applyDeltas (acc : Accum) (deltas : list Delta) : list Effect * Accum :=
  match deltas with
  | [] => ([], acc)
  | d :: ds =>
      let '(out1, acc1) := applyDelta acc d in
      let '(out2, acc2) := applyDeltas acc1 ds in
      (out1 ++ out2, acc2)
  end.

Inductive StreamResult :=
| StreamDone (acc : Accum)
| StreamAborted
| StreamThrew (e : JsError).

(** The inner [while (true)] loop over [reader.read()]. *)
Fixpoint readStream (chunks : list Chunk) (ending : StreamEnd) (acc : Accum)
    : list Effect * StreamResult :=
  match chunks with
  | [] =>
      match ending with
      | Done => ([], StreamDone acc)
      | ReadRejects e => ([], StreamThrew e)
      end
  | chunk :: rest =>
      if chunk_aborted chunk then ([Yield (ErrorMessage "Request aborted")], StreamAborted)
      else
        let '(out1, acc1) := applyDeltas acc (chunk_deltas chunk) in
        let '(out2, res) := readStream rest ending acc1 in
        (out1 ++ out2, res)
  end.

(** [turnToolCalls.filter(tc => tc.id && tc.name)]; holes are skipped. *)
Definition validToolCalls (turnToolCalls : list (option ToolCallRef)) : list ToolCallRef :=
  omap (fun slot =>
          match slot with
          | Some tc => if truthy_string (tc_id tc) && truthy_string (tc_name tc)
                       then Some tc else None
          | None => None
          end) turnToolCalls.

Section Loop.

(** The state of the tool executor's world, [JSON.parse] ([None] when it
    throws), [executeTool] (which never throws), [process.cwd()] and the
    names of the MCP tools known when the schema is built. *)
Context {X : Type}.
Variable JSON_parse : string -> option JsValue.
Variable executeTool : ToolCall JsValue -> string -> X -> X * ToolResult.
Variable process_cwd : string.
Variable mcpToolNames : list string.

(** The schema of the request lists the allowed tools, then the MCP
    tools not among them (names only). *)
Definition buildToolsSchema (allowed : list string) : list string :=
  allowed ++ filter (fun n => n ∉ allowed) mcpToolNames.

(** ** Fetch with retries *)

(** The [for] loop over attempts; [remaining] is
    [MAX_RETRIES + 1 - attempt]. *)
Fixpoint fetchWithRetry (remaining attempt : nat) (fetched : nat -> FetchOutcome)
    (url apiKey : string) (requestBody : RequestBody) (lastError : option JsError)
    : list Effect * option Response * option JsError :=
  match remaining with
  | 0 => ([], None, lastError)
  | S remaining' =>
      let request := Fetch attempt url apiKey requestBody FETCH_TIMEOUT in
      match fetched attempt with
      | FetchResolves response => ([request], Some response, lastError)
      | FetchRejects fetchError =>
          let backoff :=
            if attempt <? MAX_RETRIES then [Sleep (2 ^ Z.of_nat attempt * 1000)%Z] else [] in
          let '(trace, response, lastError') :=
            fetchWithRetry remaining' (S attempt) fetched url apiKey requestBody
                           (Some fetchError) in
          (request :: backoff ++ trace, response, lastError')
      end
  end.

(** ** Tool dispatch *)

(** [JSON.parse(tc.arguments)] with its [catch]. *)
Definition parseArguments (arguments : string) : JsValue :=
  match JSON_parse arguments with
  | Some parsed => parsed
  | None => JObj [("raw", JStr arguments)]
  end.

Definition resultText (result : ToolResult) : string :=
  if success result then output result
  else "Error: " +:+ default "undefined" (error result).

(** The [for] loop over the validated tool calls of a turn. *)
Fixpoint runToolCalls (calls : list ToolCallRef) (workingDir : string)
    (messages : list Message) (x : X) : list Effect * list Message * X :=
  match calls with
  | [] => ([], messages, x)
  | tc :: rest =>
      let parsedInput := parseArguments (tc_arguments tc) in
      let toolCall := {| id := tc_id tc; name := tc_name tc; input := parsedInput |} in
      let '(x1, result) := executeTool toolCall workingDir x in
      let messages1 :=
        messages ++ [{| role := "tool"; content := Text (resultText result);
                        tool_calls := None; tool_call_id := Some (tc_id tc) |}] in
      let '(trace, messages2, x2) := runToolCalls rest workingDir messages1 x1 in
      (Yield (AssistantToolUse (tc_id tc) (tc_name tc) parsedInput)
         :: Execute toolCall workingDir :: trace, messages2, x2)
  end.

(** ** The turn loop *)

(** The [while (turnCount < maxTurns)] loop and the final result message.
    [fuel] is [maxTurns - turnCount].  The third component is the
    exception escaping to the [catch] of [executeQuery], if any. *)
Fixpoint turnLoop (script : nat -> TurnScript) (options : ExecuteOptions)
    (url apiKey : string) (fuel turnCount : nat)
    (messages : list Message) (total : string) (x : X)
    : list Effect * X * option JsError :=
  match fuel with
  | 0 => ([Yield (ResultMessage total)], x, None)
  | S fuel' =>
      let turnCount := S turnCount in
      let world := script turnCount in
      if aborted world then ([Yield (ErrorMessage "Request aborted")], x, None)
      else
        let messages := trimHistory messages in
        let requestBody :=
          {| rb_model := default "glm-4.7" (Mcp.truthy_opt (model options));
             rb_messages := messages;
             rb_tools := match allowedTools options with
                         | [] => None
                         | allowed => Some (buildToolsSchema allowed)
                         end |} in
        let '(fetches, response, lastError) :=
          fetchWithRetry MAX_RETRIES 1 (fetched world) url apiKey requestBody None in
        match response with
        | None =>
            (fetches ++
             [Yield (ErrorMessage
                ("Z.ai API connection failed after " +:+ nat_to_string MAX_RETRIES +:+
                 " attempts: " +:+
                 or_string (from_option err_message "" lastError) "Unknown error"))],
             x, None)
        | Some response =>
            if negb (ok response) then
              match text response with
              | Return errorText =>
                  (fetches ++
                   [Yield (ErrorMessage
                      ("Z.ai API error (" +:+ nat_to_string (status response) +:+ "): " +:+
                       errorText))], x, None)
              | Throw e => (fetches, x, Some e)
              end
            else
              match body response with
              | None =>
                  (fetches ++ [Yield (ErrorMessage "Failed to read response stream")], x, None)
              | Some (chunks, ending) =>
                  let '(streamed, res) :=
                    readStream chunks ending
                      {| turnContent := ""; totalContent := total; turnToolCalls := [] |} in
                  match res with
                  | StreamAborted => (fetches ++ streamed, x, None)
                  | StreamThrew e => (fetches ++ streamed, x, Some e)
                  | StreamDone acc =>
                      match validToolCalls (turnToolCalls acc) with
                      | [] =>
                          (fetches ++ streamed ++ [Yield (ResultMessage (totalContent acc))],
                           x, None)
                      | valid =>
                          let messages1 :=
                            messages ++ [{| role := "assistant";
                                            content := Text (turnContent acc);
                                            tool_calls := Some valid;
                                            tool_call_id := None |}] in
                          let '(dispatched, messages2, x1) :=
                            runToolCalls valid
                              (or_string (default "" (cwd options)) process_cwd)
                              messages1 x in
                          let '(later, x2, thrown) :=
                            turnLoop script options url apiKey fuel' turnCount
                                     messages2 (totalContent acc) x1 in
                          (fetches ++ streamed ++ dispatched ++ later, x2, thrown)
                      end
                  end
              end
        end
  end.

(** [executeQuery] from the credentials check on; [credentials] is what
    the settings service returned or threw. *)
Definition executeQuery (credentials : outcome Credentials) (script : nat -> TurnScript)
    (options : ExecuteOptions) (x : X) : list Effect * X :=
  let caught (e : JsError) :=
    if String.eqb (err_name e) "AbortError" && err_isError e
    then Yield (ErrorMessage "Request aborted")
    else Yield (ErrorMessage (messageOr "Unknown error occurred" e)) in
  match credentials with
  | Throw e => ([caught e], x)
  | Return settings =>
      let apiKey := or_string (zai settings) (zaiChat settings) in
      if negb (truthy_string apiKey) then
        ([Yield (ErrorMessage
            "Z.ai API key not configured. Please add your API key in Settings > Providers > Z.ai")],
         x)
      else
        let useEndpoint :=
          if truthy_string (zai settings) then ZAI_ENDPOINTS_codingPlan
          else ZAI_ENDPOINTS_chat in
        let '(trace, x1, thrown) :=
          turnLoop script options (useEndpoint +:+ "/completions") apiKey
                   (default 50 (maxTurns options)) 0 (initialMessages options) "" x in
        match thrown with
        | None => (trace, x1)
        | Some e => (trace ++ [caught e], x1)
        end
  end.

End Loop.

End Provider.

(* ===================================================================== *)
(** * Concrete worlds used in examples *)
(* ===================================================================== *)

Module Examples.
Import Js Provider.

(** A query with a system prompt and a one-line prompt. *)
Definition list_files : ExecuteOptions :=
  {| prompt := PromptText "list files";
     model := None;
     systemPrompt := Some (SystemText "You are a coding agent.");
     conversationHistory := [];
     allowedTools := ["List"];
     cwd := Some "/w";
     maxTurns := None |}.

Definition zai_key : outcome Credentials := Return {| zai := "sk-test"; zaiChat := "" |}.

(** The network is down: every fetch of every turn is rejected. *)
Definition network_down (turn : nat) : TurnScript :=
  {| aborted := false;
     fetched := fun _ => FetchRejects (TypeError "fetch failed") |}.

(** A [JSON.parse] that knows the one document of the examples. *)
Definition parse_dot (s : string) : option JsValue :=
  if String.eqb s "{}" then Some (JObj []) else None.

(** An executor that reports every call as done. *)
Definition always_done (toolCall : ToolCall JsValue) (cwd : string) (x : unit)
    : unit * ToolResult :=
  (x, {| success := true; output := "done"; error := None |}).

(** A history of one system message and fifty further messages. *)
Definition fifty_one : list Message :=
  {| role := "system"; content := Text "You are a coding agent.";
     tool_calls := None; tool_call_id := None |}
  :: replicate 50 {| role := "user"; content := Text "next";
                     tool_calls := None; tool_call_id := None |}.

(** Two streamed tool calls: one with well-formed arguments, one cut
    short. *)
Definition two_calls : list ToolCallRef :=
  [ {| tc_id := "call_a"; tc_name := "List"; tc_arguments := "{}" |};
    {| tc_id := "call_b"; tc_name := "Read"; tc_arguments := "{" |} ].

(** The endpoint refuses the key. *)
Definition unauthorized : Response :=
  {| ok := false; status := 401; text := Return "invalid api key"; body := None |}.

Definition refusing (turn : nat) : TurnScript :=
  {| aborted := false; fetched := fun _ => FetchResolves unauthorized |}.

(** A first answer that asks for the [List] tool, its arguments split
    over two fragments, and a second answer that is plain text. *)
Definition asks_list : Response :=
  {| ok := true; status := 200; text := Return "";
     body := Some ([ {| chunk_aborted := false;
                        chunk_deltas :=
                          [ {| delta_content := "Let me look.";
                               delta_tool_calls :=
                                 [ {| tcd_index := Some 0; tcd_id := "call_a";
                                      tcd_name := "List"; tcd_arguments := "{" |} ] |};
                            {| delta_content := "";
                               delta_tool_calls :=
                                 [ {| tcd_index := Some 0; tcd_id := "";
                                      tcd_name := ""; tcd_arguments := "}" |} ] |} ] |} ],
                   Done) |}.

Definition says_done : Response :=
  {| ok := true; status := 200; text := Return "";
     body := Some ([ {| chunk_aborted := false;
                        chunk_deltas := [ {| delta_content := " Two files.";
                                             delta_tool_calls := [] |} ] |} ],
                   Done) |}.

Definition list_then_answer (turn : nat) : TurnScript :=
  {| aborted := false;
     fetched := fun _ => FetchResolves (if turn =? 1 then asks_list else says_done) |}.

(** Two servers: an SSE server whose URL is missing and a stdio server. *)
Definition broken_sse : Mcp.MCPServerConfig :=
  {| Mcp.cfg_type := Some "sse"; Mcp.cfg_url := None; Mcp.cfg_command := None;
     Mcp.cfg_args := None; Mcp.cfg_env := None |}.

Definition files_stdio : Mcp.MCPServerConfig :=
  {| Mcp.cfg_type := None; Mcp.cfg_url := None; Mcp.cfg_command := Some "mcp-files";
     Mcp.cfg_args := None; Mcp.cfg_env := None |}.

Definition two_servers : list (string * Mcp.MCPServerConfig) :=
  [("search", broken_sse); ("files", files_stdio)].

(** Every server that can be reached answers at once and offers one tool. *)
Definition responsive : Mcp.Attempt :=
  {| Mcp.new_URL := fun s => Return s;
     Mcp.process_env := ∅;
     Mcp.client_connect := fun _ _ => Some (Return tt);
     Mcp.client_listTools := fun _ =>
       Some (Return (Some [{| Mcp.tool_name := "read_file";
                              Mcp.tool_description := None;
                              Mcp.tool_inputSchema := None |}])) |}.

(** A server that never answers [connect]. *)
Definition silent : Mcp.Attempt :=
  {| Mcp.new_URL := fun s => Return s;
     Mcp.process_env := ∅;
     Mcp.client_connect := fun _ _ => None;
     Mcp.client_listTools := fun _ => None |}.

End Examples.

(* ===================================================================== *)
(** * Properties of the command safety filter *)
(* ===================================================================== *)

Section SafetyFilterFacts.
Import Js SafetyFilter.

(** Case folding never produces an upper-case letter; in particular no
    folded character is [K]. *)
Lemma lower_ascii_not_K (c : ascii) : lower_ascii c <> "K"%char.
Proof. destruct c as [[] [] [] [] [] [] [] []]; vm_compute; discriminate. Qed.

Lemma prefix_KILL_lower (s : string) :
  String.prefix "kill -KILL" (toLowerCase s) = false.
Proof.
  destruct (String.prefix _ _) eqn:E; [exfalso|reflexivity].
  do 6 (destruct s as [|? s]; cbn [toLowerCase String.prefix] in E; [discriminate E|];
        destruct (ascii_dec _ _) in E; [|discriminate E]).
  destruct s as [|c s]; cbn [toLowerCase String.prefix] in E; [discriminate E|].
  destruct (ascii_dec _ (lower_ascii c)) as [HK|] in E; [|discriminate E].
  exact (lower_ascii_not_K c (eq_sym HK)).
Qed.

(** The second test of rule 2 in the source looks for an upper-case
    pattern in the case-folded command: it never succeeds. *)
Lemma includes_lower_KILL (command : string) :
  includes (toLowerCase command) "kill -KILL" = false.
Proof.
  unfold includes.
  enough (indexOf (toLowerCase command) "kill -KILL" = None) as -> by reflexivity.
  induction command as [|c s IH].
  - reflexivity.
  - change (toLowerCase (String c s)) with (String (lower_ascii c) (toLowerCase s)).
    unfold indexOf; fold indexOf.
    change (String (lower_ascii c) (toLowerCase s)) with (toLowerCase (String c s)).
    rewrite prefix_KILL_lower, IH. reflexivity.
Qed.

(** What the filter computes: the rule table of the specification with
    rule 2 reduced to its [kill -9] half. *)
Lemma isDangerousCommand_rules (command : string) :
  dangerous (isDangerousCommand command) =
    spec_rule1 command || contains_ci command "kill -9" || spec_rule3 command
    || spec_rule4 command || spec_rule5 command.
Proof.
  unfold isDangerousCommand, spec_rule1, spec_rule3, spec_rule4, spec_rule5, contains_ci.
  rewrite includes_lower_KILL.
  change (toLowerCase "lsof") with "lsof".
  change (toLowerCase "kill") with "kill".
  change (toLowerCase "xargs") with "xargs".
  change (toLowerCase "kill -9") with "kill -9".
  change (toLowerCase "pkill") with "pkill".
  change (toLowerCase "killall") with "killall".
  change (toLowerCase "next") with "next".
  change (toLowerCase "node") with "node".
  change (toLowerCase "pkill -f") with "pkill -f".
  change (toLowerCase "rm -rf /") with "rm -rf /".
  change (toLowerCase "rm -rf /.") with "rm -rf /.".
  change (toLowerCase "npm run dev") with "npm run dev".
  change (toLowerCase "npm start") with "npm start".
  change (toLowerCase "npm run start") with "npm run start".
  change (toLowerCase "&") with "&".
  generalize (toLowerCase command); intros l.
  repeat match goal with
         | |- context [includes l ?p] => destruct (includes l p)
         end; reflexivity.
Qed.

(** A verdict carries a reason exactly when it is [dangerous], and the
    reason is never empty. *)
Lemma isDangerousCommand_reason (command : string) :
  match reason (isDangerousCommand command) with
  | Some r => dangerous (isDangerousCommand command) = true /\ r <> ""
  | None => dangerous (isDangerousCommand command) = false
  end.
Proof.
  unfold isDangerousCommand.
  repeat match goal with
         | |- context [if ?b then _ else _] => destruct b
         end; cbn; auto; split; (reflexivity || discriminate).
Qed.

(** Away from [kill -KILL] the filter is the rule table of the
    specification. *)
Lemma isDangerousCommand_spec_off_KILL (command : string) :
  contains_ci command "kill -KILL" = false ->
  dangerous (isDangerousCommand command) = spec_matches_any command.
Proof.
  intros HK. rewrite isDangerousCommand_rules.
  unfold spec_matches_any, spec_rule2. rewrite HK, orb_false_r. reflexivity.
Qed.

(** C1 (fails on the code).  The command [kill -KILL 1234] matches rule 2 of
    the specification, so the filter should answer [dangerous: true] with
    a reason; [isDangerousCommand] answers [dangerous: false]. *)
Theorem C1_rule_table_broken_by_KILL :
  spec_matches_any "kill -KILL 1234" = true /\
  isDangerousCommand "kill -KILL 1234" = {| dangerous := false; reason := None |}.
Proof. split; reflexivity. Qed.

(** C2 (fails on the code).  A command containing [kill -KILL] is not
    blocked: the filter folds the command to lower case and then searches
    it for the upper-case text [kill -KILL], which can never occur there. *)
Theorem C2_kill_KILL_not_blocked :
  includes "sudo kill -KILL 4242" "kill -KILL" = true /\
  spec_rule2 "sudo kill -KILL 4242" = true /\
  dangerous (isDangerousCommand "sudo kill -KILL 4242") = false /\
  (forall command, includes (toLowerCase command) "kill -KILL" = false).
Proof. repeat split; try reflexivity. apply includes_lower_KILL. Qed.

End SafetyFilterFacts.

(* ===================================================================== *)
(** * Properties of the built-in tool executor *)
(* ===================================================================== *)

Section ExecutorFacts.
Import Js SafetyFilter Mcp ToolExecutor.
Context {W : Type} `{Platform W}.

(** ** String replacement *)

Lemma indexOf_cons_dollar_free (c : ascii) (r : string) :
  includes (String c r) "$" = false ->
  Ascii.eqb c "$" = false /\ includes r "$" = false.
Proof.
  unfold includes. cbn [indexOf String.prefix].
  destruct (ascii_dec "$" c) as [<-|Hne].
  - destruct r; discriminate.
  - intros Hr. split.
    + apply Ascii.eqb_neq. congruence.
    + destruct (indexOf r "$"); [discriminate|reflexivity].
Qed.

(** A replacement text without a dollar sign stands for itself. *)
Lemma GetSubstitution_dollar_free (matched before after template : string) :
  includes template "$" = false ->
  GetSubstitution matched before after template = template.
Proof.
  induction template as [|c r IH]; [reflexivity|].
  intros Hfree. apply indexOf_cons_dollar_free in Hfree as [Hc Hr].
  cbn [GetSubstitution]. rewrite Hc, IH by assumption. reflexivity.
Qed.

Lemma replace_dollar_free (content old new : string) :
  includes new "$" = false ->
  replace content old new = replaceFirstLiteral content old new.
Proof.
  intros Hfree. unfold replace, replaceFirstLiteral.
  destruct (indexOf content old); [|reflexivity].
  rewrite GetSubstitution_dollar_free by assumption. reflexivity.
Qed.

(** ** The edit tool *)

(** When the text is not in the file, [edit] fails and touches nothing. *)
Lemma executeEdit_not_found (input : gmap string JsValue) (cwd : string) (w : W)
    (fullPath content : string) :
  truthy (alias3 input "file_path" "path" "file") = true ->
  is_undefined (alias3 input "old_string" "old" "find") = false ->
  is_undefined (alias3 input "new_string" "new" "replace") = false ->
  resolvePath cwd (alias3 input "file_path" "path" "file") = Return fullPath ->
  fs_readFileSync w fullPath = Return content ->
  includes content (ToString (alias3 input "old_string" "old" "find")) = false ->
  executeEdit input cwd w =
    (w, Return (failure
       "Could not find the specified text in the file. Make sure old_string matches exactly.")).
Proof.
  intros Hp Ho Hn Hr Hread Hinc. unfold executeEdit.
  rewrite Hp, Ho, Hn, Hr, Hread, Hinc. reflexivity.
Qed.

(** When the text is in the file, [edit] writes the file with the result
    of [String.prototype.replace]. *)
Lemma executeEdit_found (input : gmap string JsValue) (cwd : string) (w : W)
    (fullPath content : string) :
  truthy (alias3 input "file_path" "path" "file") = true ->
  is_undefined (alias3 input "old_string" "old" "find") = false ->
  is_undefined (alias3 input "new_string" "new" "replace") = false ->
  resolvePath cwd (alias3 input "file_path" "path" "file") = Return fullPath ->
  fs_readFileSync w fullPath = Return content ->
  includes content (ToString (alias3 input "old_string" "old" "find")) = true ->
  executeEdit input cwd w =
    let '(w1, written) :=
      fs_writeFileSync w fullPath
        (JStr (replace content (ToString (alias3 input "old_string" "old" "find"))
                               (ToString (alias3 input "new_string" "new" "replace")))) in
    match written with
    | Throw e => (w1, Return (failure ("Failed to edit file: " +:+ messageOr "Unknown error" e)))
    | Return _ =>
        (w1, Return (succeeded ("Successfully edited " +:+
                                ToString (alias3 input "file_path" "path" "file"))))
    end.
Proof.
  intros Hp Ho Hn Hr Hread Hinc. unfold executeEdit.
  rewrite Hp, Ho, Hn, Hr, Hread, Hinc. reflexivity.
Qed.

(** ** Empty strings in the alias chains *)

(** [a || b || c] is [undefined] exactly when [a] and [b] are falsy and
    [c] is [undefined]. *)
Lemma alias3_undefined (input : gmap string JsValue) (a b c : string) :
  is_undefined (alias3 input a b c) = true <->
  truthy (getProp input a) = false /\ truthy (getProp input b) = false /\
  input !! c = None \/
  truthy (getProp input a) = false /\ truthy (getProp input b) = false /\
  input !! c = Some JUndefined.
Proof.
  unfold alias3, or_else, getProp.
  destruct (input !! a) as [va|], (input !! b) as [vb|], (input !! c) as [vc|]; cbn;
    try destruct (truthy va) eqn:Ea; try destruct (truthy vb) eqn:Eb; cbn;
    try rewrite Ea; try rewrite Eb;
    repeat match goal with
           | v : JsValue |- _ => destruct v; cbn in *; try discriminate
           end;
    intuition (try discriminate; try congruence).
Qed.

Lemma executeWrite_content_missing (input : gmap string JsValue) (cwd : string) (w : W) :
  truthy (alias3 input "file_path" "path" "file") = true ->
  is_undefined (alias3 input "content" "text" "data") = true ->
  executeWrite input cwd w = (w, Return (failure "content is required")).
Proof. intros Hp Hc. unfold executeWrite. rewrite Hp, Hc. reflexivity. Qed.

Lemma executeEdit_old_missing (input : gmap string JsValue) (cwd : string) (w : W) :
  truthy (alias3 input "file_path" "path" "file") = true ->
  is_undefined (alias3 input "old_string" "old" "find") = true ->
  executeEdit input cwd w = (w, Return (failure "old_string is required")).
Proof. intros Hp Ho. unfold executeEdit. rewrite Hp, Ho. reflexivity. Qed.

Lemma executeEdit_new_missing (input : gmap string JsValue) (cwd : string) (w : W) :
  truthy (alias3 input "file_path" "path" "file") = true ->
  is_undefined (alias3 input "old_string" "old" "find") = false ->
  is_undefined (alias3 input "new_string" "new" "replace") = true ->
  executeEdit input cwd w = (w, Return (failure "new_string is required")).
Proof. intros Hp Ho Hn. unfold executeEdit. rewrite Hp, Ho, Hn. reflexivity. Qed.

#[local] Ltac eval_props :=
  unfold alias3, alias2, or_else, getProp;
  repeat match goal with
         | |- context [@lookup _ _ (gmap string JsValue) _ ?k ?m] =>
             let r := eval vm_compute in (m !! k) in
             change (m !! k) with r
         end;
  cbn.

(** Called with just the keys of their schemas, the tools take an empty
    string for a missing field. *)
Lemma schema_keys_empty_string (path old new : string) (cwd : string) (w : W) :
  path <> "" -> old <> "" ->
  executeWrite {[ "path" := JStr path; "content" := JStr "" ]} cwd w
    = (w, Return {| success := false; output := ""; error := Some "content is required" |})
  /\ executeEdit {[ "path" := JStr path; "old_string" := JStr ""; "new_string" := JStr new ]}
                 cwd w
    = (w, Return {| success := false; output := ""; error := Some "old_string is required" |})
  /\ executeEdit {[ "path" := JStr path; "old_string" := JStr old; "new_string" := JStr "" ]}
                 cwd w
    = (w, Return {| success := false; output := ""; error := Some "new_string is required" |}).
Proof.
  intros Hpath Hold.
  assert (truthy_string path = true) as Hp by (destruct path; [done|reflexivity]).
  assert (truthy_string old = true) as Ho by (destruct old; [done|reflexivity]).
  split; [|split];
    [apply executeWrite_content_missing
    |apply executeEdit_old_missing
    |apply executeEdit_new_missing];
    eval_props; repeat (first [rewrite Hp | rewrite Ho]; cbn); reflexivity.
Qed.

(** C10 (amended).  For every input that gives a path: [write] whose
    [content] is the empty string answers [content is required] and
    writes nothing, provided no later alias takes over ([text] absent or
    falsy, [data] absent); [edit] whose [old_string] is the empty string
    answers [old_string is required] ([old] absent or falsy, [find]
    absent); [edit] with an old string and whose [new_string] is the empty
    string answers [new_string is required] ([new] absent or falsy,
    [replace] absent).  In each case the world is left as it was. *)
Theorem C10_empty_string_missing_without_alias (input : gmap string JsValue)
    (cwd : string) (w : W) :
  truthy (alias3 input "file_path" "path" "file") = true ->
  (input !! "content" = Some (JStr "") ->
   truthy (getProp input "text") = false ->
   input !! "data" = None ->
   executeWrite input cwd w
   = (w, Return {| success := false; output := ""; error := Some "content is required" |}))
  /\ (input !! "old_string" = Some (JStr "") ->
      truthy (getProp input "old") = false ->
      input !! "find" = None ->
      executeEdit input cwd w
      = (w, Return {| success := false; output := "";
                      error := Some "old_string is required" |}))
  /\ (is_undefined (alias3 input "old_string" "old" "find") = false ->
      input !! "new_string" = Some (JStr "") ->
      truthy (getProp input "new") = false ->
      input !! "replace" = None ->
      executeEdit input cwd w
      = (w, Return {| success := false; output := "";
                      error := Some "new_string is required" |})).
Proof.
  intros Hpath. split; [|split].
  - intros Hc Ht Hd. apply executeWrite_content_missing; [exact Hpath|].
    apply alias3_undefined. left. unfold getProp at 1. rewrite Hc. auto.
  - intros Ho Hold Hf. apply executeEdit_old_missing; [exact Hpath|].
    apply alias3_undefined. left. unfold getProp at 1. rewrite Ho. auto.
  - intros Hdef Hn Hnew Hr. apply executeEdit_new_missing; [exact Hpath|exact Hdef|].
    apply alias3_undefined. left. unfold getProp at 1. rewrite Hn. auto.
Qed.

(** ** [executeTool] never throws *)

Lemma failure_explained (message : string) : explained (failure message).
Proof. intros _. eexists. reflexivity. Qed.

Lemma succeeded_explained (out : string) : explained (succeeded out).
Proof. intros ?. discriminate. Qed.

Create HintDb tools.
#[local] Hint Resolve failure_explained succeeded_explained : tools.

#[local] Ltac tool_cases :=
  repeat case_match; simplify_eq/=; auto with tools;
  try (intros _; eexists; reflexivity).

Lemma executeRead_explained input cwd (w : W) : returns_explained (executeRead input cwd w).
Proof. unfold returns_explained, executeRead. tool_cases. Qed.

Lemma executeWrite_explained input cwd (w : W) : returns_explained (executeWrite input cwd w).
Proof. unfold returns_explained, executeWrite. tool_cases. Qed.

Lemma executeEdit_explained input cwd (w : W) : returns_explained (executeEdit input cwd w).
Proof. unfold returns_explained, executeEdit. tool_cases. Qed.

Lemma executeBash_explained input cwd (w : W) : returns_explained (executeBash input cwd w).
Proof. unfold returns_explained, executeBash. tool_cases. Qed.

Lemma executeGlob_explained input cwd (w : W) : returns_explained (executeGlob input cwd w).
Proof. unfold returns_explained, executeGlob. tool_cases. Qed.

Lemma executeGrep_explained input cwd (w : W) : returns_explained (executeGrep input cwd w).
Proof. unfold returns_explained, executeGrep. tool_cases. Qed.

Lemma executeList_explained input cwd (w : W) : returns_explained (executeList input cwd w).
Proof. unfold returns_explained, executeList. tool_cases. Qed.

Lemma builtin_explained mcpClient name input cwd (w : W) :
  returns_explained (builtin mcpClient name input cwd w).
Proof.
  unfold builtin.
  repeat case_match;
    auto using executeRead_explained, executeWrite_explained, executeEdit_explained,
               executeBash_explained, executeGlob_explained, executeGrep_explained,
               executeList_explained.
  unfold returns_explained; cbn. auto with tools.
Qed.

Lemma callTool_explained mcpClient name input (w : W) :
  explained (callTool client_callTool mcpClient name input w).2.
Proof. unfold callTool. tool_cases. intros ?; discriminate. Qed.

Lemma builtin_unknown mcpClient name input cwd (w : W) :
  toLowerCase name ∉ builtin_names ->
  builtin mcpClient name input cwd w =
    (w, Return (failure (unknown_tool_message mcpClient name))).
Proof.
  intros Hn. unfold builtin.
  repeat match goal with
         | |- context [String.eqb ?a ?b] =>
             destruct (String.eqb_spec a b) as [Heq|_];
             [exfalso; apply Hn; rewrite Heq; unfold builtin_names; set_solver|]
         end.
  reflexivity.
Qed.


End ExecutorFacts.

Section ExecutorExamples.
Import Js Mcp ToolExecutor.

(** C5 (fails on the code).  The file holds [echo PID]; [edit] is asked to
    replace [PID] by the two characters [$$].  Replacing the first
    occurrence gives [echo $$], but [String.prototype.replace] reads [$$]
    in the replacement as one dollar sign and the file is rewritten as
    [echo $]. *)
Theorem C5_edit_reads_replacement_patterns :
  let input : gmap string JsValue :=
    {[ "path" := JStr "/w/run.sh"; "old_string" := JStr "PID";
       "new_string" := JStr "$$" ]} in
  let w : gmap string string := {[ "/w/run.sh" := "echo PID" ]} in
  includes "echo PID" "PID" = true /\
  replaceFirstLiteral "echo PID" "PID" "$$" = "echo $$" /\
  executeTool new_GlmMcpClient
      {| id := "call_0"; name := "Edit"; input := input |} "/w" w
    = ({[ "/w/run.sh" := "echo $" ]},
       Return {| success := true; output := "Successfully edited /w/run.sh";
                    error := None |}).
Proof. repeat split; vm_compute; reflexivity. Qed.



(** C10 (as stated, refuted).  An empty [content] is not always taken for
    a missing field: when the alias [data] is given as well, even empty,
    [write] succeeds and empties the file; and without a path the answer
    is [file_path is required], not [content is required]. *)
Lemma C10_later_alias_is_used :
  executeWrite {[ "path" := JStr "/w/notes.txt"; "content" := JStr ""; "data" := JStr "" ]}
      "/w" ({[ "/w/notes.txt" := "TODO: write" ]} : gmap string string)
    = ({[ "/w/notes.txt" := "" ]},
       Return {| success := true; output := "Successfully wrote to /w/notes.txt";
                 error := None |})
  /\ executeWrite {[ "content" := JStr "" ]}
      "/w" ({[ "/w/notes.txt" := "TODO: write" ]} : gmap string string)
    = ({[ "/w/notes.txt" := "TODO: write" ]},
       Return {| success := false; output := ""; error := Some "file_path is required" |}).
Proof. split; vm_compute; reflexivity. Qed.

Lemma C10_empty_string_missing_without_alias_witness :
  executeWrite {[ "path" := JStr "/w/notes.txt"; "content" := JStr ""; "text" := JStr "" ]}
      "/w" ({[ "/w/notes.txt" := "TODO: write" ]} : gmap string string)
    = ({[ "/w/notes.txt" := "TODO: write" ]},
       Return {| success := false; output := ""; error := Some "content is required" |})
  /\ executeEdit {[ "file_path" := JStr "/w/notes.txt"; "old_string" := JStr "";
                    "old" := JNull; "new_string" := JStr "DONE" ]} "/w"
      ({[ "/w/notes.txt" := "TODO: write" ]} : gmap string string)
    = ({[ "/w/notes.txt" := "TODO: write" ]},
       Return {| success := false; output := ""; error := Some "old_string is required" |})
  /\ executeEdit {[ "path" := JStr "/w/notes.txt"; "old_string" := JStr "TODO";
                    "new_string" := JStr "" ]} "/w"
      ({[ "/w/notes.txt" := "TODO: write" ]} : gmap string string)
    = ({[ "/w/notes.txt" := "TODO: write" ]},
       Return {| success := false; output := ""; error := Some "new_string is required" |}).
Proof.
  split; [|split].
  - exact (proj1 (C10_empty_string_missing_without_alias
                    {[ "path" := JStr "/w/notes.txt"; "content" := JStr "";
                       "text" := JStr "" ]} "/w"
                    ({[ "/w/notes.txt" := "TODO: write" ]} : gmap string string) eq_refl)
                 eq_refl eq_refl eq_refl).
  - exact (proj1 (proj2 (C10_empty_string_missing_without_alias
                    {[ "file_path" := JStr "/w/notes.txt"; "old_string" := JStr "";
                       "old" := JNull; "new_string" := JStr "DONE" ]} "/w"
                    ({[ "/w/notes.txt" := "TODO: write" ]} : gmap string string) eq_refl))
                 eq_refl eq_refl eq_refl).
  - exact (proj2 (proj2 (C10_empty_string_missing_without_alias
                    {[ "path" := JStr "/w/notes.txt"; "old_string" := JStr "TODO";
                       "new_string" := JStr "" ]} "/w"
                    ({[ "/w/notes.txt" := "TODO: write" ]} : gmap string string) eq_refl))
                 eq_refl eq_refl eq_refl eq_refl).
Defined.


End ExecutorExamples.

(* ===================================================================== *)
(** * Properties of the completion loop *)
(* ===================================================================== *)

Section ProviderFacts.
Import Js Provider.

(** ** History trimming *)

Lemma trimHistory_short (messages : list Message) :
  length messages <= 42 -> trimHistory messages = messages.
Proof.
  intros Hlen. unfold trimHistory.
  destruct (42 <? length messages) eqn:E; [|reflexivity].
  apply Nat.ltb_lt in E. lia.
Qed.

(** Above 42 messages the list is cut to its first message and its last
    40; what lies between is dropped. *)
Lemma trimHistory_long (messages : list Message) :
  42 < length messages ->
  exists systemMsg middle recent,
    messages = systemMsg :: middle ++ recent /\
    length recent = 40 /\
    slice_last 40 messages = recent /\
    trimHistory messages = systemMsg :: recent.
Proof.
  intros Hlen. unfold trimHistory.
  apply Nat.ltb_lt in Hlen as Hb. rewrite Hb.
  destruct messages as [|m0 rest]; [cbn in Hlen; lia|].
  cbn [length] in Hlen.
  exists m0, (take (length rest - 40) rest), (drop (length rest - 40) rest).
  assert (slice_last 40 (m0 :: rest) = drop (length rest - 40) rest) as Hslice.
  { unfold slice_last. cbn [length].
    replace (S (length rest) - 40) with (S (length rest - 40)) by lia.
    reflexivity. }
  rewrite Hslice, take_drop. repeat split; try reflexivity.
  rewrite length_drop. lia.
Qed.

Lemma trimHistory_length (messages : list Message) :
  length (trimHistory messages) <= 42.
Proof.
  destruct (decide (42 < length messages)) as [Hlong|Hshort].
  - destruct (trimHistory_long messages Hlong) as (m0 & mid & recent & _ & Hr & _ & ->).
    cbn. lia.
  - rewrite trimHistory_short by lia. lia.
Qed.

Lemma trimHistory_head (messages : list Message) :
  head (trimHistory messages) = head messages.
Proof.
  destruct (decide (42 < length messages)) as [Hlong|Hshort].
  - destruct (trimHistory_long messages Hlong) as (m0 & mid & recent & Hm & _ & _ & ->).
    rewrite Hm. reflexivity.
  - rewrite trimHistory_short by lia. reflexivity.
Qed.

(** ** Requests of a query *)

Section Requests.
Context {X : Type}.
Variable JSON_parse : string -> option JsValue.
Variable executeTool : ToolCall JsValue -> string -> X -> X * ToolResult.
Variable process_cwd : string.
Variable mcpToolNames : list string.

Lemma requests_app (t1 t2 : list Effect) : requests (t1 ++ t2) = requests t1 ++ requests t2.
Proof. unfold requests. apply omap_app. Qed.

Lemma requests_fetchWithRetry remaining attempt fetched url apiKey requestBody lastError :
  Forall (fun body => body = requestBody)
    (requests (fetchWithRetry remaining attempt fetched url apiKey requestBody lastError).1.1).
Proof.
  revert attempt lastError.
  induction remaining as [|remaining IH]; intros attempt lastError; cbn [fetchWithRetry].
  - constructor.
  - destruct (fetched attempt) as [e|r].
    + specialize (IH (S attempt) (Some e)).
      destruct (fetchWithRetry remaining (S attempt) fetched url apiKey requestBody (Some e))
        as [[trace response] lastError'].
      cbn [fst snd] in *.
      match goal with
      | |- Forall _ (requests (?r :: ?bo ++ trace)) =>
          change (r :: bo ++ trace) with ([r] ++ bo ++ trace)
      end.
      rewrite !requests_app. apply Forall_app. split; [repeat constructor|].
      apply Forall_app. split; [|exact IH].
      destruct (attempt <? MAX_RETRIES); constructor.
    + repeat constructor.
Qed.

Lemma requests_applyDelta acc d : requests (applyDelta acc d).1 = [].
Proof. unfold applyDelta. destruct (truthy_string (delta_content d)); reflexivity. Qed.

Lemma requests_applyDeltas acc deltas : requests (applyDeltas acc deltas).1 = [].
Proof.
  revert acc. induction deltas as [|d ds IH]; intros acc; cbn [applyDeltas]; [reflexivity|].
  pose proof (requests_applyDelta acc d) as Hd.
  destruct (applyDelta acc d) as [out1 acc1].
  specialize (IH acc1). destruct (applyDeltas acc1 ds) as [out2 acc2].
  cbn [fst] in *. rewrite requests_app, Hd, IH. reflexivity.
Qed.

Lemma requests_readStream chunks ending acc : requests (readStream chunks ending acc).1 = [].
Proof.
  revert acc. induction chunks as [|c cs IH]; intros acc; cbn [readStream].
  - destruct ending; reflexivity.
  - destruct (chunk_aborted c); [reflexivity|].
    pose proof (requests_applyDeltas acc (chunk_deltas c)) as Hd.
    destruct (applyDeltas acc (chunk_deltas c)) as [out1 acc1].
    specialize (IH acc1). destruct (readStream cs ending acc1) as [out2 res].
    cbn [fst] in *. rewrite requests_app, Hd, IH. reflexivity.
Qed.

Lemma runToolCalls_facts calls workingDir messages x :
  let '(trace, messages', _) := runToolCalls JSON_parse executeTool calls workingDir messages x in
  requests trace = [] /\ exists added, messages' = messages ++ added /\ length added = length calls.
Proof.
  revert messages x. induction calls as [|tc rest IH]; intros messages x; cbn.
  - split; [reflexivity|]. exists []. rewrite app_nil_r. auto.
  - destruct (executeTool _ workingDir x) as [x1 result].
    match goal with
    | |- context [runToolCalls _ _ rest workingDir ?m x1] => specialize (IH m x1)
    end.
    destruct (runToolCalls _ _ rest workingDir _ x1) as [[trace messages2] x2].
    destruct IH as [Hreq (added & -> & Hlen)].
    split; [exact Hreq|]. eexists (_ :: added). rewrite <- app_assoc. cbn. auto.
Qed.

Lemma head_app_Some {A} (l k : list A) (a : A) : head l = Some a -> head (l ++ k) = Some a.
Proof. destruct l; [discriminate|]. auto. Qed.

(** Every request of the turn loop carries a trimmed history whose first
    message is the first message the loop started with. *)
Lemma turnLoop_requests script options url apiKey fuel turnCount messages total x first :
  head messages = Some first ->
  Forall (fun body => sent_trimmed first body)
    (requests (turnLoop JSON_parse executeTool process_cwd mcpToolNames
                        script options url apiKey fuel turnCount messages total x).1.1).
Proof.
  revert turnCount messages total x.
  induction fuel as [|fuel IH]; intros turnCount messages total x Hhead; cbn [turnLoop].
  - cbn. constructor.
  - destruct (aborted (script (S turnCount))); [cbn; constructor|].
    match goal with
    | |- context [fetchWithRetry ?r ?a ?f ?u ?k ?b ?l] =>
        pose proof (requests_fetchWithRetry r a f u k b l) as Hfetch;
        destruct (fetchWithRetry r a f u k b l) as [[fetches response] lastError]
    end.
    cbn [fst snd] in Hfetch.
    assert (Forall (sent_trimmed first) (requests fetches)) as Hfetches.
    { eapply Forall_impl; [exact Hfetch|]. intros body ->. unfold sent_trimmed. cbn.
      split; [eauto|]. split; [apply trimHistory_length|].
      rewrite trimHistory_head. exact Hhead. }
    destruct response as [response|]; cbn [fst snd].
    2: { rewrite requests_app, app_nil_r. exact Hfetches. }
    destruct (ok response); cbn [negb].
    2: { destruct (text response); cbn [fst snd];
           [rewrite requests_app, app_nil_r|]; exact Hfetches. }
    destruct (body response) as [[chunks ending]|]; cbn [fst snd].
    2: { rewrite requests_app, app_nil_r. exact Hfetches. }
    match goal with
    | |- context [readStream chunks ending ?acc] =>
        pose proof (requests_readStream chunks ending acc) as Hstream;
        destruct (readStream chunks ending acc) as [streamed res]
    end.
    cbn [fst] in Hstream.
    destruct res as [acc| |e]; cbn [fst snd];
      try (rewrite requests_app, Hstream, app_nil_r; exact Hfetches).
    destruct (validToolCalls (turnToolCalls acc)) as [|tc valid] eqn:Hvalid; cbn [fst snd].
    { rewrite !requests_app, Hstream, !app_nil_r. exact Hfetches. }
    match goal with
    | |- context [runToolCalls _ _ ?cs ?wd ?ms x] =>
        pose proof (runToolCalls_facts cs wd ms x) as Htools;
        destruct (runToolCalls JSON_parse executeTool cs wd ms x) as [[dispatched messages2] x1]
    end.
    destruct Htools as [Hreq (added & -> & _)].
    match goal with
    | |- context [turnLoop _ _ _ _ script options url apiKey fuel ?tc' ?ms ?tot x1] =>
        specialize (IH tc' ms tot x1);
        destruct (turnLoop JSON_parse executeTool process_cwd mcpToolNames
                           script options url apiKey fuel tc' ms tot x1)
          as [[later x2] thrown]
    end.
    cbn [fst snd] in *.
    rewrite !requests_app, Hstream, Hreq. cbn [app].
    apply Forall_app. split; [exact Hfetches|].
    apply IH. rewrite <- app_assoc. apply head_app_Some.
    rewrite trimHistory_head. exact Hhead.
Qed.

Lemma initialMessages_head (options : ExecuteOptions) :
  exists first, head (initialMessages options) = Some first.
Proof.
  unfold initialMessages.
  destruct (systemPrompt options) as [[s|preset append]|]; cbn; try (eexists; reflexivity).
  - destruct (truthy_string s); cbn; [eexists; reflexivity|].
    destruct (conversationHistory options); cbn; eexists; reflexivity.
  - destruct (conversationHistory options); cbn; eexists; reflexivity.
Qed.

Lemma executeQuery_requests credentials script options x :
  Forall (fun body => (exists messages, rb_messages body = trimHistory messages) /\
                      length (rb_messages body) <= 42 /\
                      head (rb_messages body) = head (initialMessages options))
    (requests (executeQuery JSON_parse executeTool process_cwd mcpToolNames
                            credentials script options x).1).
Proof.
  unfold executeQuery.
  destruct credentials as [settings|e]; [|cbn; destruct (_ && _); constructor].
  destruct (truthy_string (or_string (zai settings) (zaiChat settings))); cbn [negb];
    [|cbn; constructor].
  destruct (initialMessages_head options) as [first Hfirst]. rewrite Hfirst.
  match goal with
  | |- context [turnLoop _ _ _ _ script options ?u ?k ?f ?tc ?ms ?tot x] =>
      pose proof (turnLoop_requests script options u k f tc ms tot x first Hfirst) as Hloop;
      destruct (turnLoop JSON_parse executeTool process_cwd mcpToolNames
                         script options u k f tc ms tot x) as [[trace x1] thrown]
  end.
  cbn [fst snd] in *.
  destruct thrown as [e|]; cbn [fst]; [|exact Hloop].
  rewrite requests_app. apply Forall_app. split; [exact Hloop|].
  destruct (_ && _); constructor.
Qed.


(** ** Retries *)

(** C3 (amended).  A turn in which every fetch fails at the transport
    level makes exactly three attempts, each with the two-minute timeout,
    waits 2s after the first failure and 4s after the second (nothing
    follows the third: the 8s step is never taken), and then ends the
    query with an error message naming the last failure. *)
Theorem C3_three_attempts_two_waits script options url apiKey fuel turnCount
    messages total x e1 e2 e3 :
  aborted (script (S turnCount)) = false ->
  fetched (script (S turnCount)) 1 = FetchRejects e1 ->
  fetched (script (S turnCount)) 2 = FetchRejects e2 ->
  fetched (script (S turnCount)) 3 = FetchRejects e3 ->
  exists requestBody,
    rb_messages requestBody = trimHistory messages /\
    turnLoop JSON_parse executeTool process_cwd mcpToolNames
             script options url apiKey (S fuel) turnCount messages total x
    = ([ Fetch 1 url apiKey requestBody 120000; Sleep 2000;
         Fetch 2 url apiKey requestBody 120000; Sleep 4000;
         Fetch 3 url apiKey requestBody 120000;
         Yield (ErrorMessage
                  ("Z.ai API connection failed after 3 attempts: " +:+
                   (if truthy_string (err_message e3) then err_message e3
                    else "Unknown error"))) ],
       x, None).
Proof.
  intros Hab H1 H2 H3. eexists. split; [|].
  2: { cbn [turnLoop]. rewrite Hab. unfold MAX_RETRIES. cbn [fetchWithRetry].
       rewrite H1, H2, H3. reflexivity. }
  reflexivity.
Qed.

(** ** Tool dispatch *)

(** The tool call the loop hands to the executor for a streamed call. *)
Lemma executed_runToolCalls calls workingDir messages x :
  executed (runToolCalls JSON_parse executeTool calls workingDir messages x).1.1
  = map (fun tc => {| id := tc_id tc; name := tc_name tc;
                      input := parseArguments JSON_parse (tc_arguments tc) |}) calls.
Proof.
  revert messages x. induction calls as [|tc rest IH]; intros messages x;
    cbn [runToolCalls]; [reflexivity|].
  destruct (executeTool _ workingDir x) as [x1 result].
  match goal with
  | |- context [runToolCalls _ _ rest workingDir ?m x1] => specialize (IH m x1)
  end.
  destruct (runToolCalls _ _ rest workingDir _ x1) as [[trace messages2] x2].
  cbn [fst snd] in *. cbn [executed omap map]. cbn. f_equal. exact IH.
Qed.

(** Dispatching tool calls yields tool-use notices only, never an error. *)
Lemma yielded_runToolCalls calls workingDir messages x :
  yielded (runToolCalls JSON_parse executeTool calls workingDir messages x).1.1
  = map (fun tc => AssistantToolUse (tc_id tc) (tc_name tc)
                     (parseArguments JSON_parse (tc_arguments tc))) calls.
Proof.
  revert messages x. induction calls as [|tc rest IH]; intros messages x;
    cbn [runToolCalls]; [reflexivity|].
  destruct (executeTool _ workingDir x) as [x1 result].
  match goal with
  | |- context [runToolCalls _ _ rest workingDir ?m x1] => specialize (IH m x1)
  end.
  destruct (runToolCalls _ _ rest workingDir _ x1) as [[trace messages2] x2].
  cbn [fst snd] in *. cbn. f_equal. exact IH.
Qed.

(** Each dispatched call adds one [tool] message tagged with its id. *)
Lemma messages_runToolCalls calls workingDir messages x :
  exists added,
    (runToolCalls JSON_parse executeTool calls workingDir messages x).1.2 = messages ++ added /\
    map tool_call_id added = map (fun tc => Some (tc_id tc)) calls /\
    Forall (fun m => role m = "tool") added.
Proof.
  revert messages x. induction calls as [|tc rest IH]; intros messages x;
    cbn [runToolCalls].
  - exists []. rewrite app_nil_r. repeat split. constructor.
  - destruct (executeTool _ workingDir x) as [x1 result].
    match goal with
    | |- context [runToolCalls _ _ rest workingDir ?m x1] => specialize (IH m x1)
    end.
    destruct (runToolCalls _ _ rest workingDir _ x1) as [[trace messages2] x2].
    cbn [fst snd] in *. destruct IH as (added & -> & Hids & Hroles).
    eexists (_ :: added). rewrite <- app_assoc. split; [reflexivity|].
    split; [cbn; f_equal; exact Hids|]. constructor; [reflexivity|exact Hroles].
Qed.


End Requests.

(** C3 (as stated, refuted).  With the network down the query makes three
    attempts and waits twice, 2s and 4s: there is no wait of 8s, so the
    policy as the specification words it does not hold of the trace. *)
Lemma C3_no_third_wait :
  sleeps (executeQuery Examples.parse_dot Examples.always_done "/" []
            Examples.zai_key Examples.network_down Examples.list_files ()).1
    = [2000; 4000]%Z
  /\ ~ retry_policy_as_specified
        (executeQuery Examples.parse_dot Examples.always_done "/" []
           Examples.zai_key Examples.network_down Examples.list_files ()).1.
Proof.
  split; [vm_compute; reflexivity|].
  intros (_ & Hsleeps & _). vm_compute in Hsleeps. discriminate Hsleeps.
Qed.

Lemma C3_three_attempts_two_waits_witness :
  exists requestBody,
    rb_messages requestBody = trimHistory (initialMessages Examples.list_files) /\
    turnLoop Examples.parse_dot Examples.always_done "/" []
             Examples.network_down Examples.list_files
             "https://api.z.ai/api/coding/paas/v4/completions" "sk-test"
             50 0 (initialMessages Examples.list_files) "" ()
    = ([ Fetch 1 "https://api.z.ai/api/coding/paas/v4/completions" "sk-test" requestBody 120000;
         Sleep 2000;
         Fetch 2 "https://api.z.ai/api/coding/paas/v4/completions" "sk-test" requestBody 120000;
         Sleep 4000;
         Fetch 3 "https://api.z.ai/api/coding/paas/v4/completions" "sk-test" requestBody 120000;
         Yield (ErrorMessage "Z.ai API connection failed after 3 attempts: fetch failed") ],
       (), None).
Proof.
  exact (C3_three_attempts_two_waits Examples.parse_dot Examples.always_done "/" []
           Examples.network_down Examples.list_files
           "https://api.z.ai/api/coding/paas/v4/completions" "sk-test"
           49 0 (initialMessages Examples.list_files) "" ()
           (TypeError "fetch failed") (TypeError "fetch failed") (TypeError "fetch failed")
           eq_refl eq_refl eq_refl eq_refl).
Defined.



End ProviderFacts.

(* ===================================================================== *)
(** * Properties of the MCP client manager *)
(* ===================================================================== *)

Section McpFacts.
Import Js Mcp.

(** ** The connection map *)

Lemma alist_get_set_eq {V} (k : string) (v : V) (l : list (string * V)) :
  alist_get k (alist_set k v l) = Some v.
Proof.
  induction l as [|[k' v'] l IH]; cbn.
  - rewrite decide_True by reflexivity. reflexivity.
  - destruct (decide (k = k')) as [->|Hne]; cbn.
    + rewrite decide_True by reflexivity. reflexivity.
    + rewrite decide_False by assumption. exact IH.
Qed.

Lemma alist_get_set_ne {V} (k k0 : string) (v : V) (l : list (string * V)) :
  k0 <> k -> alist_get k0 (alist_set k v l) = alist_get k0 l.
Proof.
  intros Hne. induction l as [|[k' v'] l IH]; cbn.
  - rewrite decide_False by assumption. reflexivity.
  - destruct (decide (k = k')) as [->|Hkk']; cbn.
    + rewrite !decide_False by assumption. reflexivity.
    + destruct (decide (k0 = k')); [reflexivity|exact IH].
Qed.

Lemma alist_get_None_not_in {V} (k : string) (l : list (string * V)) :
  alist_get k l = None -> forall v, (k, v) ∉ l.
Proof.
  induction l as [|[k' v'] l IH]; cbn; intros Hget v Hin.
  - inversion Hin.
  - destruct (decide (k = k')) as [->|Hne]; [discriminate|].
    apply elem_of_cons in Hin as [Heq|Hin]; [congruence|].
    exact (IH Hget v Hin).
Qed.

(** A tool of the catalog belongs to a connected server. *)
Lemma getAllTools_server (this : GlmMcpClient) (t : ToolDescriptor) :
  t ∈ getAllTools this ->
  exists connection, (td_serverName t, connection) ∈ connections this.
Proof.
  unfold getAllTools. intros Hin.
  apply list_elem_of_In, in_flat_map in Hin as [[serverName connection] [Hc Ht]].
  apply in_map_iff in Ht as [tool [<- _]]. cbn.
  exists connection. apply list_elem_of_In. exact Hc.
Qed.

Lemma getAllTools_absent (this : GlmMcpClient) (name : string) :
  alist_get name (connections this) = None ->
  forall t, t ∈ getAllTools this -> td_serverName t <> name.
Proof.
  intros Hget t Hin Heq.
  destruct (getAllTools_server this t Hin) as [connection Hc].
  rewrite Heq in Hc. exact (alist_get_None_not_in name _ Hget connection Hc).
Qed.

(** ** Promises settle once *)

Lemma connect_promises_prefix name config rt :
  exists added, promises (connect name config rt).1 = promises rt ++ added.
Proof.
  unfold connect.
  destruct (connecting (this rt) !! name); [exists []; cbn; by rewrite app_nil_r|].
  destruct (alist_get name (connections (this rt)));
    [exists []; cbn; by rewrite app_nil_r|].
  eexists. reflexivity.
Qed.

Lemma connect_calls_prefix name config rt :
  exists call, calls (connect name config rt).1 = calls rt ++ [call].
Proof.
  unfold connect.
  destruct (connecting (this rt) !! name); [eexists; reflexivity|].
  destruct (alist_get name (connections (this rt))); eexists; reflexivity.
Qed.

Lemma doConnect_inv j w rt rt' :
  doConnect j w rt = Some rt' ->
  exists name config o,
    promises rt !! j = Some {| job_name := name; job_config := config; job_state := Pending |} /\
    promises rt' = <[j := {| job_name := name; job_config := config;
                             job_state := Settled o |}]> (promises rt) /\
    calls rt' = calls rt /\
    connecting (this rt') = connecting (this rt) /\
    ((exists connection,
       doConnect_try w name config j = Return connection /\
       o = Return (Some connection) /\
       connections (this rt') = alist_set name connection (connections (this rt))) \/
    (exists e,
       doConnect_try w name config j = Throw e /\
       o = Return None /\
       connections (this rt') = connections (this rt))).
Proof.
  unfold doConnect. intros Hdo.
  destruct (promises rt !! j) as [[name config [|o]]|] eqn:Hj; try discriminate.
  destruct (doConnect_try w name config j) as [connection|e] eqn:Htry;
    inversion Hdo; subst; clear Hdo; cbn.
  - exists name, config, (Return (Some connection)). repeat split. left. eauto.
  - exists name, config, (Return None). repeat split. right. eauto.
Qed.

Lemma resume_inv c rt rt' :
  resume c rt = Some rt' ->
  exists j o,
    settled_outcome rt j = Some o /\
    (calls rt !! c = Some (AwaitExisting j) \/ exists name, calls rt !! c = Some (AwaitOwn name j)) /\
    promises rt' = promises rt /\
    calls rt' = <[c := Finished o]> (calls rt) /\
    connections (this rt') = connections (this rt).
Proof.
  unfold resume. intros Hres.
  destruct (calls rt !! c) as [[j|name j|o]|] eqn:Hc; try discriminate;
    destruct (settled_outcome rt j) as [o|] eqn:Ho; try discriminate;
    cbn in Hres; inversion Hres; subst; clear Hres; cbn;
    exists j, o; repeat split; eauto.
Qed.

Lemma settled_outcome_lookup rt j o :
  settled_outcome rt j = Some o <->
  exists name config,
    promises rt !! j = Some {| job_name := name; job_config := config; job_state := Settled o |}.
Proof.
  unfold settled_outcome. split.
  - destruct (promises rt !! j) as [[name config [|o']]|]; try discriminate.
    intros [= ->]. eauto.
  - intros (name & config & ->). reflexivity.
Qed.

(** A settled promise keeps its outcome. *)
Lemma step_settled_stable rt ev rt' j o :
  step rt ev = Some rt' ->
  settled_outcome rt j = Some o -> settled_outcome rt' j = Some o.
Proof.
  intros Hstep Hs. apply settled_outcome_lookup in Hs as (name & config & Hj).
  apply settled_outcome_lookup. exists name, config.
  destruct ev as [n cfg|j' w|c]; cbn in Hstep.
  - inversion Hstep; subst.
    destruct (connect_promises_prefix n cfg rt) as [added ->].
    apply lookup_app_l_Some. exact Hj.
  - apply doConnect_inv in Hstep as (n' & c' & o' & Hp & -> & _).
    destruct (decide (j' = j)) as [->|Hne]; [congruence|].
    rewrite list_lookup_insert_ne by assumption. exact Hj.
  - apply resume_inv in Hstep as (? & ? & _ & _ & -> & _). exact Hj.
Qed.

(** A call keeps observing the promise it started to observe. *)
Lemma step_observes rt ev rt' j c :
  step rt ev = Some rt' -> observes rt j c -> observes rt' j c.
Proof.
  intros Hstep Hobs. unfold observes in *.
  destruct (calls rt !! c) as [call|] eqn:Hc; [|contradiction].
  destruct ev as [n cfg|j' w|c']; cbn in Hstep.
  - inversion Hstep; subst.
    destruct (connect_calls_prefix n cfg rt) as [call' ->].
    rewrite (lookup_app_l_Some _ _ _ _ Hc).
    destruct call; try exact Hobs.
    exact (step_settled_stable rt (CallConnect n cfg) _ j o eq_refl Hobs).
  - pose proof Hstep as Hstep'.
    apply doConnect_inv in Hstep as (_ & _ & _ & _ & _ & -> & _).
    rewrite Hc. destruct call; try exact Hobs.
    eapply (step_settled_stable rt (DoConnectCompletes j' w)); [exact Hstep'|exact Hobs].
  - pose proof Hstep as Hstep'.
    apply resume_inv in Hstep as (j0 & o0 & Hs0 & Hawait & Hp & -> & _).
    destruct (decide (c' = c)) as [->|Hne].
    + rewrite list_lookup_insert_eq by (eapply lookup_lt_Some; exact Hc).
      assert (j0 = j) as ->.
      { destruct Hawait as [Ha|[name Ha]]; rewrite Hc in Ha; inversion Ha; subst;
          exact Hobs. }
      eapply (step_settled_stable rt (Resume c)); [exact Hstep'|exact Hs0].
    + rewrite list_lookup_insert_ne by assumption. rewrite Hc.
      destruct call; try exact Hobs.
      eapply (step_settled_stable rt (Resume c')); [exact Hstep'|exact Hobs].
Qed.

Lemma run_observes rt evs rt' j c :
  run rt evs = Some rt' -> observes rt j c -> observes rt' j c.
Proof.
  revert rt. induction evs as [|ev evs IH]; intros rt Hrun Hobs; cbn in Hrun.
  - inversion Hrun; subst. exact Hobs.
  - destruct (step rt ev) as [rt1|] eqn:Hstep; [|discriminate]. cbn in Hrun.
    eapply IH; [exact Hrun|]. eapply step_observes; eassumption.
Qed.

(** A finished call that observed promise [j] delivers its outcome. *)
Lemma observes_result rt j c r :
  observes rt j c -> call_result rt c = Some r -> settled_outcome rt j = Some r.
Proof.
  unfold observes, call_result.
  destruct (calls rt !! c) as [[| |o]|]; try discriminate.
  intros Hs [= <-]. exact Hs.
Qed.

(** C9.  A call of [connect] for a name with a connect in flight awaits
    the promise in flight and starts nothing; a call for a connected name
    returns the stored connection and starts nothing; two calls in a row
    for an unconnected name start exactly one [doConnect], and however the
    run continues both deliver the outcome of that one promise. *)
Theorem C9_connect_deduplicates (rt : Runtime) (name : string)
    (configA configB : MCPServerConfig) :
  (forall j,
     connecting (this rt) !! name = Some j ->
     connect name configB rt
     = ({| this := this rt; promises := promises rt;
           calls := calls rt ++ [AwaitExisting j] |}, length (calls rt)))
  /\ (forall connection,
        connecting (this rt) !! name = None ->
        alist_get name (connections (this rt)) = Some connection ->
        connect name configB rt
        = ({| this := this rt; promises := promises rt;
              calls := calls rt ++ [Finished (Return (Some connection))] |},
           length (calls rt)))
  /\ (connecting (this rt) !! name = None ->
      alist_get name (connections (this rt)) = None ->
      let j := length (promises rt) in
      let '(rt1, a) := connect name configA rt in
      let '(rt2, b) := connect name configB rt1 in
      promises rt2 = promises rt ++ [{| job_name := name; job_config := configA;
                                        job_state := Pending |}]
      /\ calls rt2 = calls rt ++ [AwaitOwn name j; AwaitExisting j]
      /\ forall evs rt3 ra rb,
           run rt2 evs = Some rt3 ->
           call_result rt3 a = Some ra ->
           call_result rt3 b = Some rb ->
           ra = rb /\ settled_outcome rt3 j = Some ra).
Proof.
  split; [|split].
  - intros j Hj. unfold connect. rewrite Hj. reflexivity.
  - intros connection Hnone Hget. unfold connect. rewrite Hnone, Hget. reflexivity.
  - intros Hnone Hget j.
    assert (connect name configA rt
            = ({| this := {| connections := connections (this rt);
                             connecting := <[name := j]> (connecting (this rt)) |};
                  promises := promises rt ++ [{| job_name := name; job_config := configA;
                                                 job_state := Pending |}];
                  calls := calls rt ++ [AwaitOwn name j] |}, length (calls rt))) as ->.
    { unfold connect. rewrite Hnone, Hget. reflexivity. }
    unfold connect. cbn [this connecting promises calls]. rewrite lookup_insert_eq.
    cbn [promises calls]. split; [reflexivity|].
    split; [rewrite <- app_assoc; reflexivity|].
    intros evs rt3 ra rb Hrun Ha Hb.
    match type of Hrun with run ?rt2 _ = _ => set (rt2' := rt2) in * end.
    assert (observes rt2' (length (promises rt)) (length (calls rt))) as Hoa.
    { unfold observes, rt2'. cbn [calls].
      rewrite <- app_assoc. cbn [app].
      rewrite list_lookup_middle by reflexivity. reflexivity. }
    assert (observes rt2' (length (promises rt)) (length (calls rt ++ [AwaitOwn name (length (promises rt))]))) as Hob.
    { unfold observes, rt2'. cbn [calls].
      rewrite list_lookup_middle by reflexivity. reflexivity. }
    pose proof (observes_result _ _ _ _ (run_observes _ _ _ _ _ Hrun Hoa) Ha) as Hra.
    pose proof (observes_result _ _ _ _ (run_observes _ _ _ _ _ Hrun Hob) Hb) as Hrb.
    split; [congruence|exact Hra].
Qed.

(** ** Initialisation *)

Lemma initialize_calls_shape (mcpServers : list (string * MCPServerConfig)) (rt : Runtime) :
  NoDup mcpServers.*1 ->
  (forall name, name ∈ mcpServers.*1 ->
     connecting (this rt) !! name = None /\
     alist_get name (connections (this rt)) = None) ->
  connections (this (initialize_calls mcpServers rt).1) = connections (this rt) /\
  promises (initialize_calls mcpServers rt).1
    = promises rt ++ map (fun nc => {| job_name := nc.1; job_config := nc.2;
                                       job_state := Pending |}) mcpServers /\
  calls (initialize_calls mcpServers rt).1
    = calls rt ++ imap (fun i nc => AwaitOwn nc.1 (length (promises rt) + i)) mcpServers /\
  (initialize_calls mcpServers rt).2 = seq (length (calls rt)) (length mcpServers).
Proof.
  revert rt. induction mcpServers as [|[name config] rest IH]; intros rt Hnd Hfree.
  - cbn. rewrite !app_nil_r. auto.
  - cbn [initialize_calls].
    destruct (Hfree name) as [Hc Hg]; [cbn; left|].
    assert (connect name config rt
            = ({| this := {| connections := connections (this rt);
                             connecting := <[name := length (promises rt)]>
                                             (connecting (this rt)) |};
                  promises := promises rt ++ [{| job_name := name; job_config := config;
                                                 job_state := Pending |}];
                  calls := calls rt ++ [AwaitOwn name (length (promises rt))] |},
               length (calls rt))) as ->.
    { unfold connect. rewrite Hc, Hg. reflexivity. }
    cbn [fmap list_fmap fst] in Hnd. apply NoDup_cons in Hnd as [Hnotin Hnd].
    match goal with
    | |- context [initialize_calls rest ?rt1] => specialize (IH rt1 Hnd)
    end.
    destruct (initialize_calls rest _) as [rt2 cs]. cbn [fst snd] in *.
    destruct IH as (Hconn & Hprom & Hcalls & Hcs).
    { intros name' Hin. cbn [this connecting connections].
      destruct (Hfree name') as [Hc' Hg']; [cbn; right; exact Hin|].
      split; [|exact Hg'].
      rewrite lookup_insert_ne; [exact Hc'|]. intros ->. exact (Hnotin Hin). }
    cbn [this connections promises calls] in *.
    split; [exact Hconn|]. split; [|split].
    + rewrite Hprom, <- app_assoc. reflexivity.
    + rewrite Hcalls, <- app_assoc. cbn [app imap]. rewrite Nat.add_0_r.
      do 2 f_equal. apply imap_ext. intros i nc _. cbn.
      rewrite length_app. cbn. f_equal. lia.
    + rewrite Hcs, length_app. cbn. f_equal. f_equal. lia.
Qed.

Lemma NoDup_fst_lookup {A} (l : list (string * A)) i j n a b :
  NoDup l.*1 -> l !! i = Some (n, a) -> l !! j = Some (n, b) -> i = j.
Proof.
  intros Hnd Hi Hj. eapply NoDup_lookup; [exact Hnd| |];
    rewrite list_lookup_fmap; [rewrite Hi|rewrite Hj]; reflexivity.
Qed.

Lemma initializing_start (mcpServers : list (string * MCPServerConfig)) world :
  NoDup mcpServers.*1 ->
  initializing mcpServers world (initialize_calls mcpServers fresh).1.
Proof.
  intros Hnd.
  destruct (initialize_calls_shape mcpServers fresh Hnd) as (Hconn & Hprom & Hcalls & _).
  { intros name _. split; reflexivity. }
  cbn in Hconn, Hprom, Hcalls.
  unfold initializing. rewrite Hconn, Hprom, Hcalls.
  rewrite length_map, length_imap. repeat split.
  intros j name config Hj. left.
  rewrite list_lookup_fmap, Hj, list_lookup_imap, Hj. cbn. auto.
Qed.

Lemma initializing_step mcpServers world rt p rt' :
  NoDup mcpServers.*1 ->
  initializing mcpServers world rt ->
  step rt (progress_event world p) = Some rt' ->
  initializing mcpServers world rt'.
Proof.
  intros Hnd (Hlp & Hlc & Hother & Hjobs) Hstep.
  destruct p as [j0|c]; cbn in Hstep.
  - apply doConnect_inv in Hstep
      as (name0 & config0 & o & Hp0 & Hprom & Hcalls & _ & Hres).
    assert (j0 < length mcpServers) as Hlt
      by (rewrite <- Hlp; eapply lookup_lt_Some; exact Hp0).
    destruct (lookup_lt_is_Some_2 mcpServers j0 Hlt) as [[n0 c0] Hs0].
    assert (n0 = name0 /\ c0 = config0) as [-> ->].
    { destruct (Hjobs j0 n0 c0 Hs0) as [(Hp & _)|(Hp & _)]; rewrite Hp0 in Hp;
        inversion Hp; auto. }
    assert (o = Return (doConnect_value (world j0) name0 config0 j0) /\
            forall name, alist_get name (connections (this rt')) =
                         if decide (name = name0)
                         then match doConnect_value (world j0) name0 config0 j0 with
                              | Some c => Some c
                              | None => alist_get name0 (connections (this rt))
                              end
                         else alist_get name (connections (this rt))) as [-> Hget].
    { unfold doConnect_value.
      destruct Hres as [(connection & -> & -> & ->)|(e & -> & -> & ->)];
        (split; [reflexivity|]); intros name; destruct (decide (name = name0)) as [->|Hne];
        try reflexivity.
      - apply alist_get_set_eq.
      - apply alist_get_set_ne. exact Hne. }
    unfold initializing. rewrite Hprom, Hcalls, length_insert.
    split; [exact Hlp|]. split; [exact Hlc|]. split.
    + intros name Hname. rewrite Hget.
      rewrite decide_False; [apply Hother; exact Hname|].
      intros ->. apply Hname. apply list_elem_of_fmap. exists (name0, config0).
      split; [reflexivity|]. eapply list_elem_of_lookup_2. exact Hs0.
    + intros j name config Hj. rewrite Hget.
      destruct (decide (j = j0)) as [->|Hne].
      * rewrite Hs0 in Hj. inversion Hj; subst. right.
        rewrite decide_True by reflexivity.
        rewrite list_lookup_insert_eq by (rewrite Hlp; exact Hlt).
        split; [reflexivity|].
        destruct (Hjobs j0 name config Hs0) as [(_ & Hg & Hc)|(Hp & _)];
          [|rewrite Hp0 in Hp; discriminate Hp].
        split; [|left; exact Hc].
        destruct (doConnect_value (world j0) name config j0); [reflexivity|exact Hg].
      * assert (name <> name0) as Hnn.
        { intros ->. apply Hne. eapply NoDup_fst_lookup; eassumption. }
        rewrite decide_False by assumption.
        rewrite list_lookup_insert_ne by (intros ->; apply Hne; reflexivity).
        exact (Hjobs j name config Hj).
  - apply resume_inv in Hstep as (j0 & o & Hs0 & Hawait & Hprom & Hcalls & Hconn).
    assert (c < length mcpServers) as Hlt.
    { rewrite <- Hlc. destruct Hawait as [Ha|[n Ha]]; eapply lookup_lt_Some; exact Ha. }
    destruct (lookup_lt_is_Some_2 mcpServers c Hlt) as [[nc cc] Hsc].
    assert (calls rt !! c = Some (AwaitOwn nc c) /\
            o = Return (doConnect_value (world c) nc cc c)) as [Hcall ->].
    { destruct (Hjobs c nc cc Hsc) as [(Hp & _ & Hc)|(Hp & _ & [Hc|Hc])].
      - exfalso. destruct Hawait as [Ha|[n Ha]]; rewrite Hc in Ha; inversion Ha; subst.
        unfold settled_outcome in Hs0. rewrite Hp in Hs0. discriminate Hs0.
      - split; [exact Hc|].
        destruct Hawait as [Ha|[n Ha]]; rewrite Hc in Ha; inversion Ha; subst.
        unfold settled_outcome in Hs0. rewrite Hp in Hs0. inversion Hs0. reflexivity.
      - exfalso. destruct Hawait as [Ha|[n Ha]]; rewrite Hc in Ha; discriminate Ha. }
    unfold initializing. rewrite Hprom, Hcalls, Hconn, length_insert.
    split; [exact Hlp|]. split; [exact Hlc|]. split; [exact Hother|].
    intros j name config Hj.
    destruct (decide (j = c)) as [->|Hne].
    + rewrite Hsc in Hj. inversion Hj; subst.
      rewrite list_lookup_insert_eq by (rewrite Hlc; exact Hlt).
      destruct (Hjobs c name config Hsc) as [(Hp & _)|(Hp & Hg & _)].
      * exfalso. unfold settled_outcome in Hs0.
        destruct Hawait as [Ha|[n Ha]]; rewrite Hcall in Ha; inversion Ha; subst;
          rewrite Hp in Hs0; discriminate Hs0.
      * right. auto.
    + rewrite list_lookup_insert_ne by (intros ->; apply Hne; reflexivity).
      exact (Hjobs j name config Hj).
Qed.

Lemma initializing_run mcpServers world rt sched rt' :
  NoDup mcpServers.*1 ->
  initializing mcpServers world rt ->
  run rt (progress_event world <$> sched) = Some rt' ->
  initializing mcpServers world rt'.
Proof.
  intros Hnd. revert rt.
  induction sched as [|p sched IH]; intros rt Hinv Hrun; cbn in Hrun.
  - inversion Hrun; subst. exact Hinv.
  - destruct (step rt (progress_event world p)) as [rt1|] eqn:Hstep; [|discriminate].
    cbn in Hrun. eapply IH; [|exact Hrun].
    eapply initializing_step; eassumption.
Qed.

Lemma promise_all_no_rejection rt cs :
  (forall c o, call_result rt c = Some o -> exists r, o = Return r) ->
  promise_all rt cs = Pending \/ promise_all rt cs = Settled (Return tt).
Proof.
  intros Hret. induction cs as [|c cs IH]; cbn; [right; reflexivity|].
  destruct (call_result rt c) as [o|] eqn:Hc.
  - destruct (Hret c o Hc) as [r ->]. exact IH.
  - destruct IH as [-> | ->]; left; reflexivity.
Qed.


End McpFacts.

Section McpExamples.
Import Js Mcp.


Lemma C9_connect_deduplicates_witness :
  connecting (this fresh) !! "files" = None /\
  alist_get "files" (connections (this fresh)) = None /\
  let '(rt1, a) := connect "files" Examples.files_stdio fresh in
  let '(rt2, b) := connect "files" Examples.files_stdio rt1 in
  length (promises rt2) = 1 /\
  exists rt3 r,
    run rt2 [DoConnectCompletes 0 Examples.responsive; Resume b; Resume a] = Some rt3 /\
    call_result rt3 a = Some r /\ call_result rt3 b = Some r /\
    settled_outcome rt3 0 = Some r.
Proof.
  split; [reflexivity|]. split; [reflexivity|].
  pose proof (proj2 (proj2 (C9_connect_deduplicates fresh "files"
                              Examples.files_stdio Examples.files_stdio))
                    eq_refl eq_refl) as H.
  cbv zeta in H.
  destruct (connect "files" Examples.files_stdio fresh) as [rt1 a] eqn:E1.
  destruct (connect "files" Examples.files_stdio rt1) as [rt2 b] eqn:E2.
  destruct H as (Hp & Hc & Hsame).
  split; [rewrite Hp; reflexivity|].
  vm_compute in E1. injection E1 as <- <-.
  vm_compute in E2. injection E2 as <- <-.
  eexists. eexists. split; [vm_compute; reflexivity|].
  split; [vm_compute; reflexivity|]. split; [vm_compute; reflexivity|].
  vm_compute. reflexivity.
Defined.

End McpExamples.
